(** * text-scraper: the extraction, normalisation and persistence pipeline

    A shallow embedding of the two scraper scripts of the repository
    ([textScraper.js], file prefix [interplex_], and the second script with
    file prefix [ennovi_]) together with the properties their specification
    states about them.

    JavaScript strings are sequences of UTF-16 code units; the regular
    expressions of the scripts are kept as syntax trees and run by a
    backtracking matcher that follows the ECMAScript matching rules
    (left-to-right alternation, greedy repetition, rejection of empty
    iterations, [^] and [$] without the multiline flag). *)

From Stdlib Require Import NArith List String Ascii Bool Lia DecimalString.
From stdpp Require Import gmap.
Import ListNotations.

Set Implicit Arguments.

(* ------------------------------------------------------------------ *)
(** ** Strings *)

(** A string value: the list of its UTF-16 code units. *)
Definition jsstring := list N.

(** An ASCII literal as a [jsstring]. *)
Definition str (s : string) : jsstring :=
  List.map N_of_ascii (list_ascii_of_string s).

(** The double quote character, U+0022. *)
Definition dquote : N := 34%N.

(** ECMAScript LineTerminator: LF, CR, LS, PS. *)
Definition is_line_terminator (c : N) : bool :=
  (c =? 10)%N || (c =? 13)%N || (c =? 8232)%N || (c =? 8233)%N.

(** ECMAScript WhiteSpace: TAB, VT, FF, ZWNBSP and the Unicode space
    separators (category Zs). *)
Definition is_white_space (c : N) : bool :=
  (c =? 9)%N || (c =? 11)%N || (c =? 12)%N || (c =? 32)%N || (c =? 160)%N
  || (c =? 5760)%N || ((8192 <=? c)%N && (c <=? 8202)%N)
  || (c =? 8239)%N || (c =? 8287)%N || (c =? 12288)%N || (c =? 65279)%N.

(** What [String.prototype.trim] strips and what [\s] matches. *)
Definition is_space (c : N) : bool := is_white_space c || is_line_terminator c.

Fixpoint drop_while (p : N -> bool) (s : jsstring) : jsstring :=
  match s with
  | [] => []
  | c :: s' => if p c then drop_while p s' else s
  end.

(** [String.prototype.trim]. *)
Definition trim (s : jsstring) : jsstring :=
  rev (drop_while is_space (rev (drop_while is_space s))).

(** [Array.prototype.join]. *)
Fixpoint join (sep : jsstring) (parts : list jsstring) : jsstring :=
  match parts with
  | [] => []
  | [p] => p
  | p :: ps => p ++ sep ++ join sep ps
  end.

(** [String.prototype.startsWith]. *)
Fixpoint startsWith (s prefix : jsstring) : bool :=
  match prefix, s with
  | [], _ => true
  | p :: prefix', c :: s' => (c =? p)%N && startsWith s' prefix'
  | _ :: _, [] => false
  end.

(* ------------------------------------------------------------------ *)
(** ** Regular expressions *)

Inductive char_class :=
| AnyChar      (* [.]  : every code unit but a line terminator *)
| WhiteSpace.  (* [\s] *)

Definition class_mem (k : char_class) (c : N) : bool :=
  match k with
  | AnyChar => negb (is_line_terminator c)
  | WhiteSpace => is_space c
  end.

Inductive regex :=
| Eps
| Chr (c : N)
| Cls (k : char_class)
| Cat (r1 r2 : regex)
| Alt (r1 r2 : regex)
| Star (r : regex)
| Bol      (* [^] *)
| Eol.     (* [$] *)

(** A continuation receives the index reached and the input left. *)
Definition cont := nat -> jsstring -> option nat.

(** Greedy repetition: try one more iteration first, and only an iteration
    that moved forward counts; otherwise go on with the continuation. *)
Fixpoint star_loop (body : cont -> cont) (k : cont)
         (fuel i : nat) (rest : jsstring) : option nat :=
  match fuel with
  | 0 => k i rest
  | S fuel' =>
      match body (fun j s => if i <? j then star_loop body k fuel' j s else None)
                 i rest with
      | Some e => Some e
      | None => k i rest
      end
  end.

(** The matcher: [re_match r k i rest] matches [r] at index [i], where
    [rest] is the input from [i] on, and hands over to [k]. The result is
    the end index of the first match in backtracking order. *)
Fixpoint re_match (r : regex) (k : cont) (i : nat) (rest : jsstring)
  : option nat :=
  match r with
  | Eps => k i rest
  | Chr c =>
      match rest with
      | x :: rest' => if (x =? c)%N then k (S i) rest' else None
      | [] => None
      end
  | Cls cl =>
      match rest with
      | x :: rest' => if class_mem cl x then k (S i) rest' else None
      | [] => None
      end
  | Cat r1 r2 => re_match r1 (fun j s => re_match r2 k j s) i rest
  | Alt r1 r2 =>
      match re_match r1 k i rest with
      | Some e => Some e
      | None => re_match r2 k i rest
      end
  | Star r1 => star_loop (re_match r1) k (length rest) i rest
  | Bol => if i =? 0 then k i rest else None
  | Eol => match rest with [] => k i rest | _ :: _ => None end
  end.

(** The final continuation: the match ends here. *)
Definition accept : cont := fun e _ => Some e.

(** A match that must start at index [i]. *)
Definition match_at (r : regex) (i : nat) (rest : jsstring) : option nat :=
  re_match r accept i rest.

(** The leftmost match at or after index [i]: its start and end. *)
Fixpoint exec_from (r : regex) (i : nat) (rest : jsstring)
  : option (nat * nat) :=
  match match_at r i rest with
  | Some e => Some (i, e)
  | None =>
      match rest with
      | [] => None
      | _ :: rest' => exec_from r (S i) rest'
      end
  end.

Definition found {A} (o : option A) : bool :=
  match o with Some _ => true | None => false end.

(** [r+], [r?], a literal string and an alternation of several branches. *)
Definition Plus (r : regex) : regex := Cat r (Star r).
Definition Opt (r : regex) : regex := Alt r Eps.

Fixpoint lit_units (s : jsstring) : regex :=
  match s with
  | [] => Eps
  | [c] => Chr c
  | c :: s' => Cat (Chr c) (lit_units s')
  end.

Definition lit (s : string) : regex := lit_units (str s).

Fixpoint alts (rs : list regex) : regex :=
  match rs with
  | [] => Eps
  | [r] => r
  | r :: rs' => Alt r (alts rs')
  end.

(** A regular expression object: its pattern, the [g] flag and the
    mutable [lastIndex] property. *)
Record RegExp := mkRegExp {
  source : regex;
  global : bool;
  lastIndex : nat
}.

(** A regular expression literal without flags. *)
Definition re (r : regex) : RegExp := mkRegExp r false 0.

(** [RegExp.prototype.test]: the verdict and the object afterwards. Without
    the [g] flag the search starts at 0 and [lastIndex] is left alone; with
    it the search starts at [lastIndex], which is then moved to the end of
    the match or reset to 0. *)
Definition RegExp_test (R : RegExp) (s : jsstring) : bool * RegExp :=
  if global R then
    if length s <? lastIndex R then (false, mkRegExp (source R) true 0)
    else
      match exec_from (source R) (lastIndex R) (skipn (lastIndex R) s) with
      | Some (_, e) => (true, mkRegExp (source R) true e)
      | None => (false, mkRegExp (source R) true 0)
      end
  else (found (exec_from (source R) 0 s), R).

(** [Array.prototype.some] with [pattern.test(line)] as the callback: stops
    at the first pattern that matches; the pattern objects are threaded. *)
Fixpoint some_test (patterns : list RegExp) (line : jsstring)
  : bool * list RegExp :=
  match patterns with
  | [] => (false, [])
  | p :: ps =>
      let '(b, p') := RegExp_test p line in
      if b then (true, p' :: ps)
      else let '(b', ps') := some_test ps line in (b', p' :: ps')
  end.

(** [String.prototype.split] with a regular expression separator: the
    separator is tried at every index [q]; a match that ends where the
    current piece began is skipped. [piece] holds the units since the last
    separator. *)
Fixpoint split_loop (r : regex) (fuel q : nat) (rest piece : jsstring)
  : list jsstring :=
  match fuel with
  | 0 => [piece ++ rest]
  | S fuel' =>
      match rest with
      | [] => [piece]
      | c :: rest' =>
          match match_at r q rest with
          | Some e =>
              if (e =? q) && (length piece =? 0)
              then split_loop r fuel' (S q) rest' (piece ++ [c])
              else piece :: split_loop r fuel' e (skipn (e - q) rest) []
          | None => split_loop r fuel' (S q) rest' (piece ++ [c])
          end
      end
  end.

Definition split (s : jsstring) (separator : regex) : list jsstring :=
  match s with
  | [] => if found (match_at separator 0 []) then [] else [[]]
  | _ :: _ => split_loop separator (2 * length s + 1) 0 s []
  end.

(** [String.prototype.replace] with a [g]-flagged pattern and a replacement
    string that holds no [$]: every match, searched from the end of the
    previous one (one unit further after an empty match), is replaced. *)
Fixpoint replace_loop (r : regex) (replacement : jsstring)
         (fuel i : nat) (rest : jsstring) : jsstring :=
  match fuel with
  | 0 => rest
  | S fuel' =>
      match exec_from r i rest with
      | None => rest
      | Some (p, e) =>
          firstn (p - i) rest ++ replacement ++
          (if e =? p then
             match skipn (p - i) rest with
             | [] => []
             | c :: rest' => c :: replace_loop r replacement fuel' (S p) rest'
             end
           else replace_loop r replacement fuel' e (skipn (e - i) rest))
      end
  end.

Definition replace_global (s : jsstring) (pattern : regex)
           (replacement : jsstring) : jsstring :=
  replace_loop pattern replacement (S (length s)) 0 s.

(** The line separator [/\r?\n/] of both scripts. *)
Definition newline : regex := Cat (Opt (Chr 13)) (Chr 10).

(** [`${n}`] for a length: its decimal digits. *)
Definition decimal (n : nat) : jsstring :=
  str (NilZero.string_of_uint (Nat.to_uint n)).

(* ------------------------------------------------------------------ *)
(** ** Errors, URLs and files *)

(** The completion of a call that may throw an [Error] with a message. *)
Inductive result (A : Type) :=
| Ok (a : A)
| Throw (message : jsstring).
Arguments Ok {A} a.
Arguments Throw {A} message.

(** The components of a parsed [URL] object. *)
Record URL := mkURL {
  protocol : jsstring;
  host : jsstring;
  pathname : jsstring;
  search : jsstring;
  hash : jsstring
}.

(** The files written so far: path to contents. [fs.writeFileSync]
    creates the file or replaces its contents. *)
Definition writeFileSync (path data : jsstring)
           (files : gmap jsstring jsstring) : gmap jsstring jsstring :=
  <[path := data]> files.

(** [path.join(dir, name)] for a directory and a single file name. *)
Definition path_join (dir name : jsstring) : jsstring :=
  dir ++ str "/" ++ name.

(** The target list read from [websites.txt] ([None]: the file could not be
    read): trimmed lines that are neither empty nor [#] comments. *)
Definition load_websites (fileContent : option jsstring) : list jsstring :=
  match fileContent with
  | None => []
  | Some text =>
      List.filter (fun line => (0 <? length line) && negb (startsWith line (str "#")))
                  (List.map trim (split text newline))
  end.

(** [/^_+|_+$/]: underscores at the start or at the end. *)
Definition edge_underscores : regex :=
  Alt (Cat Bol (Plus (Chr 95))) (Cat (Plus (Chr 95)) Eol).

(** [pagePath]: the file name stem derived from [urlObj.pathname], with
    [/\//g] replaced by an underscore and [/^_+|_+$/g] by nothing. *)
Definition pagePath (urlObj : URL) : jsstring :=
  let pagePath :=
    replace_global (replace_global (pathname urlObj) (Chr 47) (str "_"))
                   edge_underscores [] in
  match pagePath with
  | [] => str "homepage"
  | _ :: _ => pagePath
  end.

(** One CSV field: the text between two double quotes, with every double
    quote of the text replaced (pattern with the [g] flag) by two. *)
Definition csvField (text : jsstring) : jsstring :=
  [dquote] ++ replace_global text (Chr dquote) [dquote; dquote] ++ [dquote].

(** The header row and the fields, one per line. *)
Definition csvHeader : jsstring := [dquote] ++ str "Extracted Text" ++ [dquote].

Definition csvRows (lines : list jsstring) : jsstring :=
  csvHeader ++ [10%N] ++ join [10%N] (List.map csvField lines).

(* ------------------------------------------------------------------ *)
(** ** The document tree *)

Record attributes := mkAttributes {
  attr_id : option jsstring;
  attr_role : option jsstring;
  classList : list jsstring
}.

(** A node with all that is below it. The [key] stands for the identity of
    the node object: two handles are the same node when their keys are
    equal. [localName] is the tag name, in lower case in an HTML document. *)
#[local] Unset Elimination Schemes.
Inductive node :=
| Text (key : nat) (data : jsstring)
| Comment (key : nat) (data : jsstring)
| Element (key : nat) (localName : jsstring) (attrs : attributes)
          (childNodes : list node).
#[local] Set Elimination Schemes.

Definition key_of (n : node) : nat :=
  match n with
  | Text k _ | Comment k _ | Element k _ _ _ => k
  end.

(** The keys of a node and of all nodes below it, in tree order. *)
Fixpoint keys (n : node) : list nat :=
  key_of n ::
  match n with
  | Element _ _ _ cs => flat_map keys cs
  | _ => []
  end.

(** A key that no node of the tree has. *)
Definition fresh_key (n : node) : nat := S (list_max (keys n)).

(** The text a node contributes to the [textContent] of an ancestor: the
    data of its text descendants in tree order; comments contribute none. *)
Fixpoint descendant_text (n : node) : jsstring :=
  match n with
  | Text _ d => d
  | Comment _ _ => []
  | Element _ _ _ cs => concat (List.map descendant_text cs)
  end.

(** [node.textContent]. *)
Definition textContent (n : node) : jsstring :=
  match n with
  | Text _ d => d
  | Comment _ d => d
  | Element _ _ _ cs => concat (List.map descendant_text cs)
  end.

(** A deep copy made of new node objects: the copy takes the keys from
    [fresh] on, in tree order; the result holds the next unused key. *)
Fixpoint clone_tree (fresh : nat) (n : node) : node * nat :=
  match n with
  | Text _ d => (Text fresh d, S fresh)
  | Comment _ d => (Comment fresh d, S fresh)
  | Element _ t a cs =>
      let '(cs', next) :=
        (fix clone_children (fresh : nat) (l : list node) : list node * nat :=
           match l with
           | [] => ([], fresh)
           | c :: l' =>
               let '(c', next) := clone_tree fresh c in
               let '(l'', next') := clone_children next l' in
               (c' :: l'', next')
           end) (S fresh) cs in
      (Element fresh t a cs', next)
  end.

(** [node.cloneNode(deep)]. *)
Definition cloneNode (deep : bool) (fresh : nat) (n : node) : node * nat :=
  if deep then clone_tree fresh n
  else
    match n with
    | Text _ d => (Text fresh d, S fresh)
    | Comment _ d => (Comment fresh d, S fresh)
    | Element _ t a _ => (Element fresh t a [], S fresh)
    end.

(** [===] on strings. *)
Fixpoint jsstring_eqb (a b : jsstring) : bool :=
  match a, b with
  | [], [] => true
  | x :: a', y :: b' => (x =? y)%N && jsstring_eqb a' b'
  | _, _ => false
  end.

(** The simple selectors the scripts use. *)
Inductive simple_selector :=
| SelTag (name : jsstring)      (* [header] *)
| SelRole (value : jsstring)    (* [[role='banner']] *)
| SelClass (name : jsstring)    (* [.header] *)
| SelId (name : jsstring).      (* [#header] *)

(** A compound selector holds when all its parts do, a selector list when
    one of its compounds does. *)
Definition matches_simple (s : simple_selector) (tag : jsstring)
           (a : attributes) : bool :=
  match s with
  | SelTag name => jsstring_eqb tag name
  | SelRole v =>
      match attr_role a with Some r => jsstring_eqb r v | None => false end
  | SelClass c => existsb (jsstring_eqb c) (classList a)
  | SelId i =>
      match attr_id a with Some x => jsstring_eqb x i | None => false end
  end.

(** [element.matches(selectors)]. *)
Definition matches (selectors : list (list simple_selector)) (n : node) : bool :=
  match n with
  | Element _ tag a _ =>
      existsb (forallb (fun s => matches_simple s tag a)) selectors
  | _ => false
  end.

(** [root.querySelectorAll(selectors)]: the elements below [root] that
    match, in tree order, as a static list of node objects. *)
Fixpoint querySelectorAll (root : node) (selectors : list (list simple_selector))
  : list nat :=
  match root with
  | Element _ _ _ cs =>
      flat_map (fun c => (if matches selectors c then [key_of c] else [])
                         ++ querySelectorAll c selectors) cs
  | _ => []
  end.

(** [x.remove()], seen from a tree: if the node [x] is below [root] it
    leaves its parent, with all that is under it. *)
Fixpoint remove (x : nat) (root : node) : node :=
  match root with
  | Element k t a cs =>
      Element k t a
        (flat_map (fun c => if key_of c =? x then [] else [remove x c]) cs)
  | other => other
  end.

(** [nodes.forEach((x) => x.remove())] with two trees in reach: the
    container in the page and its copy. *)
Definition forEach_remove (nodes : list nat) (trees : node * node)
  : node * node :=
  fold_left (fun ts x => (remove x (fst ts), remove x (snd ts))) nodes trees.

(* ------------------------------------------------------------------ *)
(** ** textScraper.js *)

Module TextScraper.
Section Script.

(** The browser and the network, as far as one run sees them. *)
Variable World : Type.

(** Lines 44-64 for one URL: navigation, the two container queries and
    [el.innerText] of the container found, computed by the rendering
    engine. The call throws, finds no container ([None]) or yields the
    text. *)
Variable visit : World -> jsstring -> World * result (option jsstring).

(** [new URL(url)], which throws on a string that is no URL. *)
Variable new_URL : jsstring -> result URL.

Variable outputDir : jsstring.

(** Lines 67-70. *)
Definition lines (contentText : jsstring) : list jsstring :=
  List.filter (fun line => 0 <? length line)
              (List.map trim (split contentText newline)).

(** Lines 84-87. *)
Definition filePath (urlObj : URL) : jsstring :=
  path_join outputDir
            (str "interplex_" ++ pagePath urlObj ++ str "_content.csv").

(** Lines 90-92. *)
Definition csvContent (lines : list jsstring) : jsstring := csvRows lines.

(** One turn of the loop of lines 41-101: every failure only logs to the
    console and goes on with the next URL. *)
Definition scrape (st : World * gmap jsstring jsstring) (url : jsstring)
  : World * gmap jsstring jsstring :=
  let '(w, files) := st in
  let '(w', r) := visit w url in
  match r with
  | Throw _ => (w', files)
  | Ok None => (w', files)
  | Ok (Some contentText) =>
      let lines := lines contentText in
      if length lines =? 0 then (w', files)
      else
        match new_URL url with
        | Throw _ => (w', files)
        | Ok urlObj =>
            (w', writeFileSync (filePath urlObj) (csvContent lines) files)
        end
  end.

(** The script: the target list, the early exit and the loop. *)
Definition main (w : World) (files : gmap jsstring jsstring)
           (fileContent : option jsstring)
  : World * gmap jsstring jsstring :=
  let websites := load_websites fileContent in
  if length websites =? 0 then (w, files)
  else fold_left scrape websites (w, files).

End Script.
End TextScraper.

(* ------------------------------------------------------------------ *)
(** ** The second script (output prefix [ennovi_]) *)

Module Ennovi.

(** *** The code-line classifier, lines 41-58 *)

Definition ws : regex := Cls WhiteSpace.

(** The twelve patterns of [isJavaScriptLine], in source order. *)
Definition jsPatterns : list RegExp :=
  [ (* /^(var|let|const|function|if|else|for|while|return|class)\s/ *)
    re (Cat Bol (Cat (alts [lit "var"; lit "let"; lit "const"; lit "function";
                            lit "if"; lit "else"; lit "for"; lit "while";
                            lit "return"; lit "class"]) ws));
    (* /jQuery|^\$\(|\.ready\(/ *)
    re (alts [lit "jQuery"; Cat Bol (lit "$("); lit ".ready("]);
    (* /\.ajax\(|\.get\(|\.post\(/ *)
    re (alts [lit ".ajax("; lit ".get("; lit ".post("]);
    (* /console\.(log|error|warn)/ *)
    re (Cat (lit "console.") (alts [lit "log"; lit "error"; lit "warn"]));
    (* /document\.(getElementById|querySelector|addEventListener)/ *)
    re (Cat (lit "document.")
            (alts [lit "getElementById"; lit "querySelector";
                   lit "addEventListener"]));
    (* /window\.(location|addEventListener|setTimeout)/ *)
    re (Cat (lit "window.")
            (alts [lit "location"; lit "addEventListener"; lit "setTimeout"]));
    (* /\.then\(|\.catch\(|async\s|await\s/ *)
    re (alts [lit ".then("; lit ".catch("; Cat (lit "async") ws;
              Cat (lit "await") ws]);
    (* /^function\s*\(/ *)
    re (Cat Bol (Cat (lit "function") (Cat (Star ws) (lit "("))));
    (* /=>\s*{/ *)
    re (Cat (lit "=>") (Cat (Star ws) (lit "{")));
    (* /^\{.*\}$/ *)
    re (Cat Bol (Cat (lit "{") (Cat (Star (Cls AnyChar)) (Cat (lit "}") Eol))));
    (* /^}$/ *)
    re (Cat Bol (Cat (lit "}") Eol));
    (* /;\s*$/ *)
    re (Cat (lit ";") (Cat (Star ws) Eol)) ].

(** [isJavaScriptLine(line)]: does any pattern match? *)
Definition isJavaScriptLine (line : jsstring) : bool :=
  fst (some_test jsPatterns line).

(** The selector lists of the content isolation, lines 242-258. *)
Definition scriptSelectors : list (list simple_selector) :=
  [[SelTag (str "script")]; [SelTag (str "style")]; [SelTag (str "noscript")]].

Definition headerSelectors : list (list simple_selector) :=
  [[SelTag (str "header")]; [SelRole (str "banner")]; [SelClass (str "header")];
   [SelId (str "header")]; [SelClass (str "site-header")]].

Definition footerSelectors : list (list simple_selector) :=
  [[SelTag (str "footer")]; [SelRole (str "contentinfo")];
   [SelClass (str "footer")]; [SelId (str "footer")];
   [SelClass (str "site-footer")]].

Definition hiddenSelectors : list (list simple_selector) :=
  [[SelClass (str "elementor-hidden-desktop");
    SelClass (str "elementor-hidden-tablet");
    SelClass (str "elementor-hidden-mobile")]].

(** The callback of [contentHandle.evaluate], lines 239-264, run when
    [fresh] is the next unused key: the container [el] as the callback
    leaves it, and the string it returns. *)
Definition contentText (fresh : nat) (el : node) : node * jsstring :=
  let '(clone, _) := cloneNode true fresh el in
  let scripts := querySelectorAll clone scriptSelectors in
  let '(el, clone) := forEach_remove scripts (el, clone) in
  let headers := querySelectorAll clone headerSelectors in
  let '(el, clone) := forEach_remove headers (el, clone) in
  let footers := querySelectorAll clone footerSelectors in
  let '(el, clone) := forEach_remove footers (el, clone) in
  let hiddenSections := querySelectorAll clone hiddenSelectors in
  let '(el, clone) := forEach_remove hiddenSections (el, clone) in
  (el, textContent clone).

(** Lines 267-271. *)
Definition lines (contentText : jsstring) : list jsstring :=
  List.filter (fun line => negb (isJavaScriptLine line))
    (List.filter (fun line => 0 <? length line)
                 (List.map trim (split contentText newline))).

(** Lines 293-296: the byte order mark U+FEFF comes first. *)
Definition BOM : jsstring := [65279%N].

Definition csvContent (lines : list jsstring) : jsstring :=
  BOM ++ csvRows lines.

(** An entry of [failedUrls]. *)
Record failure := mkFailure {
  url : jsstring;
  reason : jsstring
}.

(** Lines 315-319. *)
Definition logContent (failedUrls : list failure) : jsstring :=
  str "Failed to scrape " ++ decimal (length failedUrls) ++ str " URL(s):"
  ++ [10%N; 10%N]
  ++ join [10%N]
       (List.map (fun item => str "URL: " ++ url item ++ [10%N]
                              ++ str "Reason: " ++ reason item ++ [10%N])
                 failedUrls).

(** How the [try] block of one URL ends when nothing is thrown. *)
Inductive completion :=
| Saved (filePath csvContent : jsstring)
| Failed (reason : jsstring).

Section Script.

Variable World : Type.

(** Lines 203-236 for one URL, up to the container handed to the
    [evaluate] callback: navigation, the pause, [autoScroll], the two
    container queries, [expandAccordions] and [processAllTabs]. The call
    throws, finds no container ([None]) or yields the container subtree
    as it is after the expansions. *)
Variable visit : World -> jsstring -> World * result (option node).

Variable new_URL : jsstring -> result URL.

Variable outputDir : jsstring.

(** Line 289. *)
Definition filePath (urlObj : URL) : jsstring :=
  path_join outputDir
            (str "ennovi_" ++ pagePath urlObj ++ str "_content.csv").

(** Line 314. *)
Definition logFilePath : jsstring :=
  path_join outputDir (str "failed_scrapes.txt").

(** The [try] block, lines 202-301. *)
Definition attempt (w : World) (url : jsstring) : World * result completion :=
  let '(w', r) := visit w url in
  (w',
   match r with
   | Throw message => Throw message
   | Ok None => Ok (Failed (str "No matching Elementor div found"))
   | Ok (Some el) =>
       let lines := lines (snd (contentText (fresh_key el) el)) in
       if length lines =? 0 then Ok (Failed (str "No visible text found"))
       else
         match new_URL url with
         | Throw message => Throw message
         | Ok urlObj => Ok (Saved (filePath urlObj) (csvContent lines))
         end
   end).

Record state := mkState {
  world : World;
  files : gmap jsstring jsstring;
  failedUrls : list failure
}.

(** One turn of the loop of lines 200-310, with its [catch]. *)
Definition scrape (st : state) (url : jsstring) : state :=
  let '(w', c) := attempt (world st) url in
  match c with
  | Ok (Saved path data) =>
      mkState w' (writeFileSync path data (files st)) (failedUrls st)
  | Ok (Failed reason) =>
      mkState w' (files st) (failedUrls st ++ [mkFailure url reason])
  | Throw message =>
      mkState w' (files st) (failedUrls st ++ [mkFailure url message])
  end.

(** Lines 313-325: the log is written when a URL failed. *)
Definition write_log (st : state) : state :=
  if 0 <? length (failedUrls st)
  then mkState (world st)
               (writeFileSync logFilePath (logContent (failedUrls st))
                              (files st))
               (failedUrls st)
  else st.

(** The script: the target list, the early exit, the loop and the log. *)
Definition main (w : World) (files : gmap jsstring jsstring)
           (fileContent : option jsstring) : state :=
  let websites := load_websites fileContent in
  if length websites =? 0 then mkState w files []
  else write_log (fold_left scrape websites (mkState w files [])).

End Script.
End Ennovi.

(* ------------------------------------------------------------------ *)
(** ** Scrolling through a page ([part_000], lines 13-36) *)

Section AutoScroll.

(** The page in the browser. What the browser does is left open: the
    height of the body may change with every scroll and with time. *)
Variable Page : Type.

(** [document.body.scrollHeight]; [None] where the document has no body,
    so that reading the property throws. *)
Variable scrollHeight : Page -> option nat.

(** [window.scrollBy(0, distance)] and [window.scrollTo(0, y)]. *)
Variable scrollBy : nat -> Page -> Page.
Variable scrollTo : nat -> Page -> Page.

(** The page left to itself for a number of milliseconds. *)
Variable elapse : nat -> Page -> Page.

Definition distance : nat := 100.

(** How a call of the timer callback leaves the timer. *)
Inductive tick :=
| Cleared (totalHeight : nat) (p : Page)
| Pending (totalHeight : nat) (p : Page).

(** The callback of [setInterval], lines 18-29. An error thrown in it ends
    this call only: the timer stays set and the promise unresolved. *)
Definition callback (totalHeight : nat) (p : Page) : tick :=
  match scrollHeight p with
  | None => Pending totalHeight p
  | Some scrollHeight =>
      let p := scrollBy distance p in
      let totalHeight := totalHeight + distance in
      if scrollHeight <=? totalHeight
      then Cleared totalHeight (scrollTo 0 p)
      else Pending totalHeight p
  end.

(** The timer: the callback every 100 ms until it clears the timer. [fuel]
    is the number of calls waited for; the result is the total height
    scrolled and the page when the promise is resolved. *)
Fixpoint interval (fuel : nat) (totalHeight : nat) (p : Page)
  : option (nat * Page) :=
  match fuel with
  | 0 => None
  | S fuel' =>
      match callback totalHeight (elapse 100 p) with
      | Cleared totalHeight' p' => Some (totalHeight', p')
      | Pending totalHeight' p' => interval fuel' totalHeight' p'
      end
  end.

(** [autoScroll]: the promise, then the wait of line 34. *)
Definition autoScroll (fuel : nat) (p : Page) : option Page :=
  match interval fuel 0 p with
  | Some (_, p') => Some (elapse 1000 p')
  | None => None
  end.

End AutoScroll.

(* ------------------------------------------------------------------ *)
(** ** Accordions and tabs ([part_000], lines 63-164) *)

Module Widgets.

(** What the callback of [title.evaluate] reads of an element. *)
Record element := mkElement {
  getAttribute : jsstring -> option jsstring;
  classList_contains : jsstring -> bool
}.

(** The callback of lines 88-92. *)
Definition isExpanded (el : element) : bool :=
  let ariaExpanded := getAttribute el (str "aria-expanded") in
  let isActive := classList_contains el (str "elementor-active") in
  match ariaExpanded with
  | Some v => jsstring_eqb v (str "true")
  | None => false
  end || isActive.

Definition accordionSelectors : list jsstring :=
  [str ".elementor-accordion .elementor-tab-title";
   str ".elementor-toggle .elementor-tab-title";
   str "[data-accordion] .accordion-title";
   str ".accordion-item .accordion-header";
   str ".elementor-accordion-item .elementor-tab-title"].

Definition tabSelectors : list jsstring :=
  [str ".elementor-tabs .elementor-tab-title";
   str ".elementor-tabs-wrapper .elementor-tab-title";
   str "[role='tablist'] [role='tab']";
   str ".elementor-widget-tabs .elementor-tab-title"].

(** The last line a helper logs. *)
Inductive report :=
| Done (total : nat)
| NoneFound
| Error (message : jsstring).

Section Helpers.

(** The page in the browser and the handles of its elements. Every call
    of the browser may change the page and may throw. *)
Variable Page Handle : Type.

(** [page.$$(selector)]. *)
Variable query_all : Page -> jsstring -> Page * result (list Handle).

(** The element a handle stands for, as [handle.evaluate] passes it to its
    callback. *)
Variable element_of : Page -> Handle -> Page * result element.

(** [handle.click()] and [page.waitForTimeout(ms)]. *)
Variable click : Page -> Handle -> Page * result unit.
Variable waitForTimeout : nat -> Page -> Page * result unit.

(** The body of the inner loop of [expandAccordions], lines 85-102, with
    its [catch]: what is thrown for one title is dropped. *)
Definition expand_title (st : Page * nat) (title : Handle) : Page * nat :=
  let '(p, totalExpanded) := st in
  let '(p, r) := element_of p title in
  match r with
  | Throw _ => (p, totalExpanded)
  | Ok el =>
      if negb (isExpanded el) then
        let '(p, r) := click p title in
        match r with
        | Throw _ => (p, totalExpanded)
        | Ok _ =>
            let '(p, _) := waitForTimeout 200 p in
            (p, S totalExpanded)
        end
      else (p, totalExpanded)
  end.

(** The loop over the selectors, lines 77-103: a query that throws ends
    it. *)
Fixpoint expand_selectors (selectors : list jsstring) (st : Page * nat)
  : Page * result nat :=
  match selectors with
  | [] => (fst st, Ok (snd st))
  | selector :: selectors' =>
      let '(p, r) := query_all (fst st) selector in
      match r with
      | Throw message => (p, Throw message)
      | Ok accordionTitles =>
          if length accordionTitles =? 0
          then expand_selectors selectors' (p, snd st)
          else expand_selectors selectors'
                                (fold_left expand_title accordionTitles
                                           (p, snd st))
      end
  end.

(** [expandAccordions]: the page afterwards and the line logged. Nothing
    is thrown to the caller. *)
Definition expandAccordions (p : Page) : Page * report :=
  let '(p, r) := expand_selectors accordionSelectors (p, 0) in
  match r with
  | Ok totalExpanded =>
      (p, if 0 <? totalExpanded then Done totalExpanded else NoneFound)
  | Throw message => (p, Error message)
  end.

(** The body of the inner loop of [processAllTabs], lines 138-150, with
    its [catch]: the tabs are queried again, and the tab of index [i] is
    clicked if there is one. *)
Definition click_tab (selector : jsstring) (st : Page * nat) (i : nat)
  : Page * nat :=
  let '(p, totalTabs) := st in
  let '(p, r) := query_all p selector in
  match r with
  | Throw _ => (p, totalTabs)
  | Ok currentTabs =>
      match nth_error currentTabs i with
      | None => (p, totalTabs)
      | Some tab =>
          let '(p, r) := click p tab in
          match r with
          | Throw _ => (p, totalTabs)
          | Ok _ =>
              let '(p, _) := waitForTimeout 300 p in
              (p, S totalTabs)
          end
      end
  end.

(** The loop over the selectors, lines 127-151. *)
Fixpoint click_selectors (selectors : list jsstring) (st : Page * nat)
  : Page * result nat :=
  match selectors with
  | [] => (fst st, Ok (snd st))
  | selector :: selectors' =>
      let '(p, r) := query_all (fst st) selector in
      match r with
      | Throw message => (p, Throw message)
      | Ok tabs =>
          if length tabs =? 0
          then click_selectors selectors' (p, snd st)
          else click_selectors selectors'
                               (fold_left (click_tab selector)
                                          (seq 0 (length tabs)) (p, snd st))
      end
  end.

(** [processAllTabs]. *)
Definition processAllTabs (p : Page) : Page * report :=
  let '(p, r) := click_selectors tabSelectors (p, 0) in
  match r with
  | Ok totalTabs => (p, if 0 <? totalTabs then Done totalTabs else NoneFound)
  | Throw message => (p, Error message)
  end.

End Helpers.
End Widgets.

(* ------------------------------------------------------------------ *)
(** ** Definitions used to state the properties *)

(** The substrings that flag a line wherever they stand in it. *)
Definition flagged_substrings : list jsstring :=
  [str "jQuery"; str "console.log"; str "console.error"; str "console.warn";
   str ".then("; str ".catch("; str "async "; str "await "].


(** A continuation that never ends a match before the index it is given. *)
Definition forward (k : cont) : Prop :=
  forall j s e, k j s = Some e -> j <= e.

(** Stripping: a run of [p] dropped from the end, and from both ends. *)
Definition strip_end (p : N -> bool) (s : jsstring) : jsstring :=
  rev (drop_while p (rev s)).

Definition is_underscore (c : N) : bool := (c =? 95)%N.

Definition strip_underscores (s : jsstring) : jsstring :=
  strip_end is_underscore (drop_while is_underscore s).

Definition slashes_to_underscores (s : jsstring) : jsstring :=
  List.map (fun c => if (c =? 47)%N then 95%N else c) s.

(** Every double quote doubled. *)
Definition double_quotes (text : jsstring) : jsstring :=
  flat_map (fun c => if (c =? dquote)%N then [dquote; dquote] else [c]) text.

(** An element the content isolation takes out: a script, style or noscript
    element, a header or footer by tag, role, class or id, or an element
    hidden on desktop, tablet and mobile at once. *)
Definition removable (n : node) : bool :=
  matches Ennovi.scriptSelectors n || matches Ennovi.headerSelectors n
  || matches Ennovi.footerSelectors n || matches Ennovi.hiddenSelectors n.

(** The text of what is left: below an element, the text under every child
    that is not taken out. *)
Fixpoint kept_text (n : node) : jsstring :=
  match n with
  | Text _ d => d
  | Comment _ _ => []
  | Element _ _ _ cs =>
      concat (List.map (fun c => if removable c then [] else kept_text c) cs)
  end.

(** A tree without the elements below its root that match, and without
    all that is under them. *)
Fixpoint without (selectors : list (list simple_selector)) (root : node)
  : node :=
  match root with
  | Element k t a cs =>
      Element k t a
        (flat_map (fun c => if matches selectors c then []
                            else [without selectors c]) cs)
  | other => other
  end.

(** A tree without the nodes below its root whose keys are listed. *)
Fixpoint without_keys (xs : list nat) (root : node) : node :=
  match root with
  | Element k t a cs =>
      Element k t a
        (flat_map (fun c => if existsb (Nat.eqb (key_of c)) xs then []
                            else [without_keys xs c]) cs)
  | other => other
  end.

(** A tree after the four removals. *)
Definition isolated (n : node) : node :=
  without Ennovi.hiddenSelectors
    (without Ennovi.footerSelectors
       (without Ennovi.headerSelectors
          (without Ennovi.scriptSelectors n))).

(** All nodes below a node, in tree order. *)
Fixpoint descendants (n : node) : list node :=
  match n with
  | Element _ _ _ cs => flat_map (fun c => c :: descendants c) cs
  | _ => []
  end.

(** Nodes below [n] that share a key match the same selectors. *)
Definition coherent (n : node) : Prop :=
  forall sel d d',
    In d (descendants n) -> In d' (descendants n) ->
    key_of d = key_of d' -> matches sel d = matches sel d'.

(** Induction over the tree, with the hypothesis for every child. *)
Fixpoint node_induction (P : node -> Prop)
         (HT : forall k d, P (Text k d)) (HC : forall k d, P (Comment k d))
         (HE : forall k t a cs, List.Forall P cs -> P (Element k t a cs))
         (n : node) : P n :=
  match n with
  | Text k d => HT k d
  | Comment k d => HC k d
  | Element k t a cs =>
      HE k t a cs
         ((fix children (l : list node) : List.Forall P l :=
             match l with
             | [] => @List.Forall_nil node P
             | c :: l' =>
                 @List.Forall_cons node P c l' (node_induction HT HC HE c)
                                   (children l')
             end) cs)
  end.

(** How the visit of one URL ends for the second script: an error thrown
    on the way (by the navigation or by anything after it), no container,
    a container none of whose lines survive, or a CSV file. *)
Inductive visit_outcome :=
| Thrown (message : jsstring)
| MissingContainer
| NoSurvivingLines
| Produced (path data : jsstring).

(** The reason recorded for an outcome that leaves no CSV file. *)
Definition reason_of (o : visit_outcome) : option jsstring :=
  match o with
  | Thrown message => Some message
  | MissingContainer => Some (str "No matching Elementor div found")
  | NoSurvivingLines => Some (str "No visible text found")
  | Produced _ _ => None
  end.

Section Traces.

Variable World : Type.
Variable visit : World -> jsstring -> World * result (option node).
Variable new_URL : jsstring -> result URL.
Variable outputDir : jsstring.

Definition classify (url : jsstring) (r : result (option node))
  : visit_outcome :=
  match r with
  | Throw message => Thrown message
  | Ok None => MissingContainer
  | Ok (Some el) =>
      match Ennovi.lines (snd (Ennovi.contentText (fresh_key el) el)) with
      | [] => NoSurvivingLines
      | l :: ls =>
          match new_URL url with
          | Throw message => Thrown message
          | Ok urlObj =>
              Produced (Ennovi.filePath outputDir urlObj)
                       (Ennovi.csvContent (l :: ls))
          end
      end
  end.

(** The outcomes of the target list, visited in order. *)
Fixpoint trace (w : World) (urls : list jsstring)
  : list (jsstring * visit_outcome) :=
  match urls with
  | [] => []
  | url :: urls' =>
      let '(w', r) := visit w url in
      (url, classify url r) :: trace w' urls'
  end.

Fixpoint world_after (w : World) (urls : list jsstring) : World :=
  match urls with
  | [] => w
  | url :: urls' => world_after (fst (visit w url)) urls'
  end.

End Traces.

(** The failure records a trace calls for: one for each entry without a
    CSV file, in the order of the trace. *)
Definition failures (t : list (jsstring * visit_outcome))
  : list Ennovi.failure :=
  flat_map (fun entry =>
              match reason_of (snd entry) with
              | Some reason => [Ennovi.mkFailure (fst entry) reason]
              | None => []
              end) t.

(** The CSV files of a trace, written in its order. *)
Definition produced (files : gmap jsstring jsstring)
           (t : list (jsstring * visit_outcome)) : gmap jsstring jsstring :=
  fold_left (fun fs entry =>
               match snd entry with
               | Produced path data => writeFileSync path data fs
               | _ => fs
               end) t files.

(** Two URLs of different hosts, queries and fragments with one path. *)
Definition about_a : URL :=
  mkURL (str "https:") (str "a.example") (str "/about") (str "?x=1") [].

Definition about_b : URL :=
  mkURL (str "https:") (str "b.example") (str "/about") [] (str "#top").

(** A session in which every page holds one paragraph. *)
Definition sample_page : node :=
  Element 0 (str "div") (mkAttributes None None [])
          [Element 1 (str "p") (mkAttributes None None []) [Text 2 (str "Hello")]].

Definition sample_visit (w : unit) (url : jsstring)
  : unit * result (option node) := (w, Ok (Some sample_page)).

Definition sample_visit_text (w : unit) (url : jsstring)
  : unit * result (option jsstring) := (w, Ok (Some (str "Hello"))).

Definition sample_new_URL (url : jsstring) : result URL := Ok about_b.

(** The copies of a list of siblings, keys running on from one to the next. *)
Fixpoint clone_forest (fresh : nat) (l : list node) : list node * nat :=
  match l with
  | [] => ([], fresh)
  | c :: l' =>
      let '(c', next) := clone_tree fresh c in
      let '(l'', next') := clone_forest next l' in
      (c' :: l'', next')
  end.

(** All nodes below [n] were made after the key [fresh] was the next one. *)
Definition above (fresh : nat) (n : node) : Prop :=
  forall d, In d (descendants n) -> fresh < key_of d.

(** A container with chrome, scripts and hidden sections around one
    paragraph shown on some breakpoints only. *)
Definition sample_container : node :=
  Element 0 (str "div") (mkAttributes None None [])
    [Element 1 (str "script") (mkAttributes None None [])
       [Text 2 (str "var a;")];
     Element 3 (str "div")
       (mkAttributes None None
          [str "elementor-hidden-desktop"; str "elementor-hidden-mobile"])
       [Text 4 (str "Opening hours")];
     Element 5 (str "section")
       (mkAttributes None None
          [str "elementor-hidden-desktop"; str "elementor-hidden-tablet";
           str "elementor-hidden-mobile"])
       [Text 6 (str "never shown")];
     Element 7 (str "div") (mkAttributes None None [str "site-footer"])
       [Text 8 (str "Imprint")]].

(* ------------------------------------------------------------------ *)
(** ** What a pattern matches *)

(** [re_sem r i s e s']: the pattern [r] matches, at index [i] where the
    input left is [s], up to index [e] where the input left is [s']. An
    iteration of a repetition has to move forward. *)
Inductive re_sem : regex -> nat -> jsstring -> nat -> jsstring -> Prop :=
| sem_eps i s : re_sem Eps i s i s
| sem_chr c i s : re_sem (Chr c) i (c :: s) (S i) s
| sem_cls k x i s :
    class_mem k x = true -> re_sem (Cls k) i (x :: s) (S i) s
| sem_cat r1 r2 i s j s' e s'' :
    re_sem r1 i s j s' -> re_sem r2 j s' e s'' -> re_sem (Cat r1 r2) i s e s''
| sem_alt_l r1 r2 i s e s' :
    re_sem r1 i s e s' -> re_sem (Alt r1 r2) i s e s'
| sem_alt_r r1 r2 i s e s' :
    re_sem r2 i s e s' -> re_sem (Alt r1 r2) i s e s'
| sem_star_stop r i s : re_sem (Star r) i s i s
| sem_star_more r i s j s' e s'' :
    re_sem r i s j s' -> i < j -> re_sem (Star r) j s' e s'' ->
    re_sem (Star r) i s e s''
| sem_bol s : re_sem Bol 0 s 0 s
| sem_eol i : re_sem Eol i [] i [].

(** [line] holds [w] somewhere, and [line] starts with [w]. *)
Definition contains (w line : jsstring) : Prop :=
  exists pre post, line = pre ++ w ++ post.

Definition starts_with (w line : jsstring) : Prop :=
  exists post, line = w ++ post.

(** The matcher finds a result for [r] at this place with the continuation
    [k]; for a repetition, with any fuel that covers the input left. *)
Definition finds (r : regex) (i : nat) (s : jsstring) (k : cont) : Prop :=
  match r with
  | Star r0 =>
      forall fuel, length s <= fuel ->
                   found (star_loop (re_match r0) k fuel i s) = true
  | _ => found (re_match r k i s) = true
  end.


(** The words that flag a line which starts with one of them and goes on
    with white space. *)
Definition keyword_prefixes : list jsstring :=
  [str "var"; str "let"; str "const"; str "function"; str "if"; str "else";
   str "for"; str "while"; str "return"; str "class"].

(** The substrings that flag a line wherever they stand in it. *)
Definition code_substrings : list jsstring :=
  [str "jQuery"; str ".ready("; str ".ajax("; str ".get("; str ".post(";
   str "console.log"; str "console.error"; str "console.warn";
   str "document.getElementById"; str "document.querySelector";
   str "document.addEventListener"; str "window.location";
   str "window.addEventListener"; str "window.setTimeout";
   str ".then("; str ".catch("].

(** What the twelve patterns say of a line, pattern by pattern. *)
Definition code_like (line : jsstring) : Prop :=
  (exists kw c rest,
      In kw keyword_prefixes /\ is_space c = true /\ line = kw ++ c :: rest)
  \/ (exists w, In w code_substrings /\ contains w line)
  \/ (exists w c pre post,
         In w [str "async"; str "await"] /\ is_space c = true /\
         line = pre ++ w ++ c :: post)
  \/ starts_with (str "$(") line
  \/ (exists sp post,
         forallb is_space sp = true /\
         line = str "function" ++ sp ++ str "(" ++ post)
  \/ (exists pre sp post,
         forallb is_space sp = true /\
         line = pre ++ str "=>" ++ sp ++ str "{" ++ post)
  \/ (exists mid,
         forallb (fun c => negb (is_line_terminator c)) mid = true /\
         line = str "{" ++ mid ++ str "}")
  \/ line = str "}"
  \/ (exists pre sp, forallb is_space sp = true /\ line = pre ++ str ";" ++ sp).

(** A code unit that no pattern but the keyword, jQuery, async and await
    ones can do without: none of [.], [(], [;], [{] and [}]. *)
Definition plain_unit (c : N) : bool :=
  negb ((c =? 46)%N || (c =? 40)%N || (c =? 59)%N || (c =? 123)%N
        || (c =? 125)%N).

(** Cutting a text at every line feed, a carriage return directly before
    the line feed going with it; [piece] is the line begun. *)
Fixpoint cut_lines (s piece : jsstring) : list jsstring :=
  match s with
  | [] => [piece]
  | c :: s' =>
      if (c =? 10)%N then piece :: cut_lines s' []
      else if (c =? 13)%N then
        match s' with
        | d :: s'' =>
            if (d =? 10)%N then piece :: cut_lines s'' []
            else cut_lines s' (piece ++ [c])
        | [] => cut_lines s' (piece ++ [c])
        end
      else cut_lines s' (piece ++ [c])
  end.

(** The number of line feeds of a text. *)
Definition line_feeds (s : jsstring) : nat :=
  length (List.filter (fun c => (c =? 10)%N) s).

(** A URL with another path. *)
Definition with_pathname (u : URL) (p : jsstring) : URL :=
  mkURL (protocol u) (host u) p (search u) (hash u).

(** Whether a visit of the second script ended in a CSV file. *)
Definition is_produced (o : visit_outcome) : bool :=
  match o with
  | Produced _ _ => true
  | _ => false
  end.

(** The state of the loops of [expandAccordions] after the titles [seen]
    of a page that began as [p0], where [expanded] tells whether a title
    of a page is expanded: the titles seen are expanded, the others as
    they were, and the count is that of the titles seen that were
    collapsed. *)
Definition expanding {Page Handle : Type} (expanded : Page -> Handle -> bool)
           (p0 : Page) (seen : list Handle) (st : Page * nat) : Prop :=
  (forall h, expanded (fst st) h = true <->
             expanded p0 h = true \/ In h seen) /\
  exists l, List.NoDup l /\
            (forall h, In h l <-> In h seen /\ expanded p0 h = false) /\
            snd st = length l.

(** A page of toggles for the examples: the state of a page is the set of
    its expanded titles, every selector finds the titles 1 and 2, and a
    click turns the state of the title clicked. *)
Definition toggles_query (p : nat -> bool) (selector : jsstring)
  : (nat -> bool) * result (list nat) := (p, Ok [1; 2]).

Definition toggles_element (p : nat -> bool) (h : nat)
  : (nat -> bool) * result Widgets.element :=
  (p, Ok (Widgets.mkElement
            (fun name => if p h then Some (str "true") else Some (str "false"))
            (fun name => false))).

Definition toggles_click (p : nat -> bool) (h : nat)
  : (nat -> bool) * result unit :=
  (fun h' => if h' =? h then negb (p h) else p h', Ok tt).

Definition toggles_wait (ms : nat) (p : nat -> bool)
  : (nat -> bool) * result unit := (p, Ok tt).

(** The first line of the log for [n] failures, and the three lines of
    one failure. *)
Definition log_header (n : nat) : jsstring :=
  str "Failed to scrape " ++ decimal n ++ str " URL(s):".

Definition log_entry (item : Ennovi.failure) : list jsstring :=
  [str "URL: " ++ Ennovi.url item; str "Reason: " ++ Ennovi.reason item; []].

(** A string of one line: no line feed in it, no carriage return at its
    end. *)
Definition one_line (l : jsstring) : Prop :=
  ~ In 10%N l /\ forall pre, l <> pre ++ [13%N].

(** What the specification has the content isolation take out of the
    copy, in its own words: a script, style or noscript element; a header
    or a footer by tag name, by role, or by the class and id conventions;
    an element with the hidden classes of desktop, tablet and mobile all
    at once. *)
Definition taken_out (n : node) : Prop :=
  match n with
  | Element _ tag a _ =>
      (tag = str "script" \/ tag = str "style" \/ tag = str "noscript")
      \/ (tag = str "header" \/ attr_role a = Some (str "banner")
          \/ In (str "header") (classList a)
          \/ attr_id a = Some (str "header")
          \/ In (str "site-header") (classList a))
      \/ (tag = str "footer" \/ attr_role a = Some (str "contentinfo")
          \/ In (str "footer") (classList a)
          \/ attr_id a = Some (str "footer")
          \/ In (str "site-footer") (classList a))
      \/ (In (str "elementor-hidden-desktop") (classList a)
          /\ In (str "elementor-hidden-tablet") (classList a)
          /\ In (str "elementor-hidden-mobile") (classList a))
  | _ => False
  end.

(** The failure log as the specification words it: the count of the
    failures, then for each failure in order a block of a URL line and a
    reason line, an empty line before every block. *)
Definition log_block (item : Ennovi.failure) : jsstring :=
  str "URL: " ++ Ennovi.url item ++ [10%N]
  ++ str "Reason: " ++ Ennovi.reason item ++ [10%N].

Definition log_by_spec (fs : list Ennovi.failure) : jsstring :=
  log_header (length fs) ++ [10%N]
  ++ concat (List.map (fun item => [10%N] ++ log_block item) fs).

(** The files after the loop of the second script and its log, for the
    outcomes [t] of the targets: the CSV files of [t] written in order, and
    then the log when a target failed. *)
Definition files_of_run (outputDir : jsstring)
           (files0 : gmap jsstring jsstring)
           (t : list (jsstring * visit_outcome)) : gmap jsstring jsstring :=
  match failures t with
  | [] => produced files0 t
  | f :: fs =>
      writeFileSync (Ennovi.logFilePath outputDir) (log_by_spec (f :: fs))
                    (produced files0 t)
  end.

(** The text the specification has the isolation return for a node: the
    data of the text nodes below it in tree order, leaving out all that is
    under an element taken out. *)
#[local] Unset Elimination Schemes.
Inductive text_left : node -> jsstring -> Prop :=
| left_text (k : nat) (d : jsstring) : text_left (Text k d) d
| left_comment (k : nat) (d : jsstring) : text_left (Comment k d) []
| left_element (k : nat) (t : jsstring) (a : attributes) (cs : list node)
               (parts : list jsstring) :
    List.Forall2 (fun c part => (taken_out c /\ part = [])
                                \/ (~ taken_out c /\ text_left c part))
                 cs parts ->
    text_left (Element k t a cs) (concat parts).
#[local] Set Elimination Schemes.

(* ================================================================== *)
(** * Properties *)

Unset Implicit Arguments.


(* ------------------------------------------------------------------ *)
(** ** The string primitives on small inputs *)

Example split_newlines :
  split (str "a" ++ [10%N] ++ str "b" ++ [13%N; 10%N] ++ [10%N]) newline
  = [str "a"; str "b"; []; []].
Proof. vm_compute. reflexivity. Qed.

Example split_empty : split [] newline = [[]].
Proof. vm_compute. reflexivity. Qed.

Example split_lone_return :
  split (str "a" ++ [13%N] ++ str "b") newline = [str "a" ++ [13%N] ++ str "b"].
Proof. vm_compute. reflexivity. Qed.

Example trim_spaces :
  trim ([9%N; 32%N] ++ str "a b" ++ [160%N; 13%N]) = str "a b".
Proof. vm_compute. reflexivity. Qed.

Example replace_empty_matches :
  replace_global (str "aXbXX") (Star (Chr 88)) (str "-") = str "-a--b--".
Proof. vm_compute. reflexivity. Qed.

Example replace_inner_underscores :
  replace_global (str "__a_b__") edge_underscores [] = str "a_b".
Proof. vm_compute. reflexivity. Qed.

Example test_with_g_flag_moves :
  RegExp_test (mkRegExp (Chr 97) true 0) (str "aba")
  = (true, mkRegExp (Chr 97) true 1) /\
  RegExp_test (mkRegExp (Chr 97) true 1) (str "aba")
  = (true, mkRegExp (Chr 97) true 3) /\
  RegExp_test (mkRegExp (Chr 97) true 3) (str "aba")
  = (false, mkRegExp (Chr 97) true 0).
Proof. vm_compute. repeat split. Qed.

Example isJavaScriptLine_samples :
  Ennovi.isJavaScriptLine (str "function foo() {") = true /\
  Ennovi.isJavaScriptLine (str "Contact us") = false /\
  Ennovi.isJavaScriptLine (str "functional design") = false /\
  Ennovi.isJavaScriptLine (str "items.map(x =>   {") = true /\
  Ennovi.isJavaScriptLine (str "{}") = true.
Proof. vm_compute. repeat split. Qed.
(* ------------------------------------------------------------------ *)
(** ** The matcher *)

(** A match found at every index of a suffix is found by the search over
    the whole string. *)
Lemma exec_from_app (r : regex) (s : jsstring) :
  (forall j, found (match_at r j s) = true) ->
  forall pre i, found (exec_from r i (pre ++ s)) = true.
Proof.
  intros Hs pre. induction pre as [|c pre IH]; intros i.
  - simpl. destruct s as [|x s].
    + simpl. specialize (Hs i). destruct (match_at r i []); [reflexivity|discriminate].
    + simpl. specialize (Hs i). destruct (match_at r i (x :: s)); [reflexivity|discriminate].
  - simpl. destruct (match_at r i (c :: pre ++ s)); [reflexivity|apply IH].
Qed.

(** A pattern without the [g] flag is not changed by [test]. *)
Lemma RegExp_test_plain (R : RegExp) (s : jsstring) :
  global R = false ->
  RegExp_test R s = (found (exec_from (source R) 0 s), R).
Proof. intros H. unfold RegExp_test. rewrite H. reflexivity. Qed.

Lemma some_test_plain (patterns : list RegExp) (line : jsstring) :
  Forall (fun p => global p = false) patterns ->
  some_test patterns line =
    (existsb (fun p => found (exec_from (source p) 0 line)) patterns, patterns).
Proof.
  induction 1 as [|p ps Hp Hps IH]; simpl; [reflexivity|].
  rewrite (RegExp_test_plain p line Hp).
  destruct (found (exec_from (source p) 0 line)); simpl; [reflexivity|].
  rewrite IH. reflexivity.
Qed.

Lemma jsPatterns_plain : Forall (fun p => global p = false) Ennovi.jsPatterns.
Proof. unfold Ennovi.jsPatterns. repeat constructor. Qed.

Lemma isJavaScriptLine_existsb (line : jsstring) :
  Ennovi.isJavaScriptLine line =
    existsb (fun p => found (exec_from (source p) 0 line)) Ennovi.jsPatterns.
Proof.
  unfold Ennovi.isJavaScriptLine.
  rewrite (some_test_plain _ line jsPatterns_plain). reflexivity.
Qed.

(** The line is flagged as soon as the [n]-th pattern matches at every
    index of a suffix. *)
Lemma flagged_by (n : nat) (p : RegExp) (pre s : jsstring) :
  nth_error Ennovi.jsPatterns n = Some p ->
  (forall j, found (match_at (source p) j s) = true) ->
  Ennovi.isJavaScriptLine (pre ++ s) = true.
Proof.
  intros Hn Hs. rewrite isJavaScriptLine_existsb.
  apply existsb_exists. exists p. split.
  - eapply nth_error_In; eassumption.
  - apply exec_from_app; assumption.
Qed.

Lemma star_loop_S (body : cont -> cont) (k : cont) (fuel i : nat)
      (rest : jsstring) :
  star_loop body k (S fuel) i rest =
    match body (fun j s => if i <? j then star_loop body k fuel j s else None)
               i rest with
    | Some e => Some e
    | None => k i rest
    end.
Proof. reflexivity. Qed.

Lemma ltb_succ (i : nat) : (i <? S i) = true.
Proof. apply Nat.ltb_lt. lia. Qed.

(** Greedy repetition of a character class over a run of the class can
    stop after the run. *)
Lemma star_class_run (cl : char_class) (k : cont) (s t : jsstring) :
  forallb (class_mem cl) s = true ->
  forall fuel i,
    length s <= fuel ->
    found (k (i + length s) t) = true ->
    found (star_loop (re_match (Cls cl)) k fuel i (s ++ t)) = true.
Proof.
  set (body := re_match (Cls cl)).
  assert (Hb : forall k' j x r,
             body k' j (x :: r) = if class_mem cl x then k' (S j) r else None)
    by reflexivity.
  clearbody body.
  induction s as [|c s IH]; intros Hs fuel i Hf Hk.
  - simpl in Hk. replace (i + 0) with i in Hk by lia. simpl app.
    destruct fuel as [|fuel]; [exact Hk|].
    rewrite star_loop_S. destruct (body _ i t); [reflexivity|exact Hk].
  - simpl in Hs. apply andb_true_iff in Hs as [Hc Hs].
    destruct fuel as [|fuel]; simpl in Hf; [lia|].
    rewrite star_loop_S. simpl app. rewrite Hb, Hc, ltb_succ.
    assert (Hrec : found (star_loop body k fuel (S i) (s ++ t)) = true).
    { apply IH; [assumption|lia|].
      replace (S i + length s) with (i + length (c :: s)) by (simpl; lia).
      assumption. }
    destruct (star_loop body k fuel (S i) (s ++ t));
      [reflexivity|discriminate].
Qed.

Lemma exec_from_hit (r : regex) (i : nat) (s : jsstring) :
  found (match_at r i s) = true -> found (exec_from r i s) = true.
Proof.
  intros H. destruct s; simpl; destruct (match_at r i _);
    solve [reflexivity | discriminate].
Qed.

(* ------------------------------------------------------------------ *)
(** ** The classifier *)

(** C8. The classifier is a function of its line alone: the twelve pattern
    objects carry no [g] flag, so a call leaves them as they were, and a
    second classification of the same line, even with the very objects the
    first call used, returns the verdict of the first. *)
Theorem classifier_same_verdict_twice (line : jsstring) :
  let first := some_test Ennovi.jsPatterns line in
  let second := some_test (snd first) line in
  fst first = Ennovi.isJavaScriptLine line /\
  snd first = Ennovi.jsPatterns /\
  fst second = fst first.
Proof.
  pose proof (some_test_plain _ line jsPatterns_plain) as E.
  cbv zeta. rewrite E. cbn [fst snd]. rewrite E. cbn [fst].
  rewrite isJavaScriptLine_existsb. auto.
Qed.

(** C3, counterexample. A line that is exactly an opening brace is not
    flagged: the pattern that starts with an opening brace also asks for a
    closing one. *)
Lemma lone_opening_brace_not_flagged :
  ~ (Ennovi.isJavaScriptLine (str "{") = true /\
     Ennovi.isJavaScriptLine (str "}") = true /\
     forall pre, Ennovi.isJavaScriptLine (pre ++ str ";") = true).
Proof. intros [H _]. vm_compute in H. discriminate. Qed.

(** C3, amended. A line that is exactly a closing brace is flagged; so is
    a line that opens with a brace and closes with one, with no line
    terminator in between; so is every line that ends in a semicolon. A
    line that is exactly an opening brace is not. *)
Theorem classifier_braces_and_semicolon (mid pre : jsstring) :
  forallb (fun c => negb (is_line_terminator c)) mid = true ->
  Ennovi.isJavaScriptLine (str "}") = true /\
  Ennovi.isJavaScriptLine (str "{" ++ mid ++ str "}") = true /\
  Ennovi.isJavaScriptLine (pre ++ str ";") = true /\
  Ennovi.isJavaScriptLine (str "{") = false.
Proof.
  intros Hmid. split; [|split; [|split]].
  - vm_compute. reflexivity.
  - rewrite isJavaScriptLine_existsb. apply existsb_exists.
    eexists. split.
    + apply (nth_error_In _ 9). reflexivity.
    + apply exec_from_hit. cbn -[star_loop length].
      apply (star_class_run AnyChar); [exact Hmid | rewrite length_app; lia |].
      vm_compute. reflexivity.
  - apply (flagged_by 11 _ pre (str ";") eq_refl).
    intros j. vm_compute. reflexivity.
  - vm_compute. reflexivity.
Qed.

Lemma classifier_braces_and_semicolon_witness :
  Ennovi.isJavaScriptLine (str "{ a: 1 }") = true /\
  Ennovi.isJavaScriptLine (str "Terms apply;") = true.
Proof.
  destruct (classifier_braces_and_semicolon (str " a: 1 ") (str "Terms apply")
              eq_refl) as (_ & H1 & H2 & _).
  split; [exact H1 | exact H2].
Defined.

(** C10. A line that holds one of these substrings anywhere is flagged as
    code, and so no line of an extraction result holds one; a sentence of
    prose that mentions jQuery is dropped like a line of code. *)
Theorem unanchored_substrings_flagged :
  Forall (fun w =>
            forall pre post,
              Ennovi.isJavaScriptLine (pre ++ w ++ post) = true /\
              forall text, ~ In (pre ++ w ++ post) (Ennovi.lines text))
         flagged_substrings /\
  Ennovi.lines (str "Our team" ++ [10%N] ++ str "We use jQuery daily")
  = [str "Our team"].
Proof.
  split; [|vm_compute; reflexivity].
  assert (Hrm : forall l, Ennovi.isJavaScriptLine l = true ->
                          forall text, ~ In l (Ennovi.lines text)).
  { intros l Hl text Hin. unfold Ennovi.lines in Hin.
    apply filter_In in Hin as [_ Hn]. rewrite Hl in Hn. discriminate. }
  unfold flagged_substrings.
  repeat (constructor; [intros pre post; split; [|apply Hrm]|]);
    [..|constructor].
  all: first [ apply (flagged_by 1 _ pre _ eq_refl); intros j; vm_compute; reflexivity
             | apply (flagged_by 3 _ pre _ eq_refl); intros j; vm_compute; reflexivity
             | apply (flagged_by 6 _ pre _ eq_refl); intros j; vm_compute; reflexivity ].
Qed.

(* ------------------------------------------------------------------ *)
(** ** Trimming and the extraction result *)

Lemma drop_while_idem (p : N -> bool) (s : jsstring) :
  drop_while p (drop_while p s) = drop_while p s.
Proof.
  induction s as [|c s IH]; simpl; [reflexivity|].
  destruct (p c) eqn:E; [exact IH|]. simpl. rewrite E. reflexivity.
Qed.

(** What [drop_while] drops is a run of [p], and what it keeps does not
    start with one. *)
Lemma drop_while_split (p : N -> bool) (s : jsstring) :
  exists pre, s = pre ++ drop_while p s /\ forallb p pre = true.
Proof.
  induction s as [|c s (pre & E & Hp)]; simpl.
  - exists []. split; reflexivity.
  - destruct (p c) eqn:Ec.
    + exists (c :: pre). simpl. rewrite Ec, Hp. split; [f_equal; exact E|reflexivity].
    + exists []. split; reflexivity.
Qed.

Lemma drop_while_fixed (p : N -> bool) (c : N) (s : jsstring) :
  p c = false -> drop_while p (c :: s) = c :: s.
Proof. intros H. simpl. rewrite H. reflexivity. Qed.

(** A string that starts with no [p] keeps that after a run of [p] is
    dropped from its end. *)
Lemma drop_end_keeps_start (p : N -> bool) (a : jsstring) :
  drop_while p a = a ->
  drop_while p (rev (drop_while p (rev a))) = rev (drop_while p (rev a)).
Proof.
  intros Ha.
  destruct (drop_while_split p (rev a)) as (pre & E & _).
  destruct (drop_while p (rev a)) as [|b bs] eqn:Eb; [reflexivity|].
  assert (Ea : a = rev (b :: bs) ++ rev pre).
  { rewrite <- rev_app_distr, <- E, rev_involutive. reflexivity. }
  destruct (rev (b :: bs)) as [|x xs] eqn:Ex.
  - reflexivity.
  - apply drop_while_fixed.
    rewrite Ea in Ha. simpl in Ha.
    destruct (p x) eqn:Epx; [|reflexivity].
    exfalso.
    destruct (drop_while_split p (xs ++ rev pre)) as (q & Eq & _).
    rewrite Ha in Eq.
    apply (f_equal (@length N)) in Eq.
    rewrite !length_app in Eq. simpl in Eq. rewrite ?length_app in Eq. lia.
Qed.

Lemma trim_idem (s : jsstring) : trim (trim s) = trim s.
Proof.
  unfold trim.
  rewrite (drop_end_keeps_start is_space (drop_while is_space s)
             (drop_while_idem is_space s)).
  rewrite rev_involutive, drop_while_idem. reflexivity.
Qed.

Lemma length_pos_nonempty (l : jsstring) : (0 <? length l) = true -> l <> [].
Proof. destruct l; simpl; [discriminate|discriminate]. Qed.

(** The lines either script keeps are trimmed and not empty. *)
Lemma kept_lines_trimmed (text l : jsstring) :
  In l (List.filter (fun line => 0 <? length line)
                    (List.map trim (split text newline))) ->
  trim l = l /\ trim l <> [].
Proof.
  intros H. apply filter_In in H as [Hin Hlen].
  apply in_map_iff in Hin as (raw & <- & _).
  rewrite trim_idem. split; [reflexivity|].
  apply length_pos_nonempty. exact Hlen.
Qed.

(** C1. The five raw lines of the scenario, as the text that splits into
    them, leave exactly the two prose lines, in order. *)
Theorem end_to_end_scenario :
  let raw := [str "Welcome"; []; str "  "; str "function foo() {";
              str "Contact us"] in
  split (join [10%N] raw) newline = raw /\
  Ennovi.lines (join [10%N] raw) = [str "Welcome"; str "Contact us"] /\
  List.filter (fun line => negb (Ennovi.isJavaScriptLine line))
    (List.filter (fun line => 0 <? length line) (List.map trim raw))
  = [str "Welcome"; str "Contact us"].
Proof. vm_compute. repeat split. Qed.

(** C2, counterexample. [textScraper.js] has no code filter: a line of
    code in the container text is in its extraction result. *)
Lemma textScraper_keeps_code_line :
  In (str "var x = 1;") (TextScraper.lines (str "Intro" ++ [10%N] ++ str "var x = 1;"))
  /\ Ennovi.isJavaScriptLine (str "var x = 1;") = true.
Proof. vm_compute. split; [right; left; reflexivity|reflexivity]. Qed.

(** C2, amended. In both scripts every line of the extraction result is
    trimmed and not empty; in the script with the classifier each of them
    is moreover matched by none of the twelve patterns. *)
Theorem surviving_lines (text : jsstring) :
  Forall (fun l => trim l = l /\ trim l <> [] /\
                   Ennovi.isJavaScriptLine l = false /\
                   Forall (fun p => fst (RegExp_test p l) = false)
                          Ennovi.jsPatterns)
         (Ennovi.lines text) /\
  Forall (fun l => trim l = l /\ trim l <> []) (TextScraper.lines text).
Proof.
  split; apply List.Forall_forall; intros l Hl.
  - unfold Ennovi.lines in Hl. apply filter_In in Hl as [Hl Hjs].
    apply kept_lines_trimmed in Hl as [Ht Hne].
    apply negb_true_iff in Hjs.
    repeat split; try assumption.
    apply List.Forall_forall. intros p Hp.
    rewrite isJavaScriptLine_existsb in Hjs.
    rewrite RegExp_test_plain.
    + simpl. destruct (found (exec_from (source p) 0 l)) eqn:E; [|reflexivity].
      rewrite <- Hjs. symmetry. apply existsb_exists. exists p. split; assumption.
    + pose proof jsPatterns_plain as Hg.
      rewrite List.Forall_forall in Hg. apply Hg. exact Hp.
  - unfold TextScraper.lines in Hl. apply kept_lines_trimmed in Hl. exact Hl.
Qed.

(* ------------------------------------------------------------------ *)
(** ** Matches move forward *)

Lemma star_loop_forward (body : cont -> cont) (k : cont) :
  (forall k', forward k' -> forward (body k')) ->
  forward k ->
  forall fuel, forward (star_loop body k fuel).
Proof.
  intros Hbody Hk fuel. induction fuel as [|fuel IH]; intros i s e H.
  - exact (Hk _ _ _ H).
  - rewrite star_loop_S in H.
    destruct (body _ i s) as [e'|] eqn:E.
    + injection H as <-. revert E. apply Hbody.
      intros j s' e0. destruct (i <? j) eqn:Hij; [|discriminate].
      intros H0. apply IH in H0. exact H0.
    + exact (Hk _ _ _ H).
Qed.

Lemma re_match_forward (r : regex) :
  forall k, forward k -> forward (re_match r k).
Proof.
  induction r as [|c|cl|r1 IH1 r2 IH2|r1 IH1 r2 IH2|r IH| |];
    intros k Hk i s e H; simpl in H.
  - exact (Hk _ _ _ H).
  - destruct s as [|x s]; [discriminate|].
    destruct (x =? c)%N; [|discriminate]. apply Hk in H. lia.
  - destruct s as [|x s]; [discriminate|].
    destruct (class_mem cl x); [|discriminate]. apply Hk in H. lia.
  - revert H. apply IH1. intros j s' e'. apply IH2. exact Hk.
  - destruct (re_match r1 k i s) as [e'|] eqn:E.
    + injection H as <-. exact (IH1 k Hk _ _ _ E).
    + exact (IH2 k Hk _ _ _ H).
  - revert H. apply star_loop_forward; assumption.
  - destruct (i =? 0); [|discriminate]. exact (Hk _ _ _ H).
  - destruct s; [|discriminate]. exact (Hk _ _ _ H).
Qed.

Lemma match_at_forward (r : regex) (i : nat) (s : jsstring) (e : nat) :
  match_at r i s = Some e -> i <= e.
Proof.
  apply (re_match_forward r accept).
  intros j s' e' H. injection H as <-. lia.
Qed.

Lemma exec_from_bounds (r : regex) (s : jsstring) :
  forall i p e, exec_from r i s = Some (p, e) -> i <= p <= e.
Proof.
  induction s as [|x s IH]; intros i p e H; simpl in H.
  - destruct (match_at r i []) eqn:E; [|discriminate].
    injection H as <- <-. apply match_at_forward in E. lia.
  - destruct (match_at r i (x :: s)) eqn:E.
    + injection H as <- <-. apply match_at_forward in E. lia.
    + apply IH in H. lia.
Qed.

(* ------------------------------------------------------------------ *)
(** ** Replacing every match *)

Lemma replace_loop_S (r : regex) (repl : jsstring) (fuel i : nat)
      (rest : jsstring) :
  replace_loop r repl (S fuel) i rest =
    match exec_from r i rest with
    | None => rest
    | Some (p, e) =>
        firstn (p - i) rest ++ repl ++
        (if e =? p then
           match skipn (p - i) rest with
           | [] => []
           | c :: rest' => c :: replace_loop r repl fuel (S p) rest'
           end
         else replace_loop r repl fuel e (skipn (e - i) rest))
    end.
Proof. reflexivity. Qed.

(** A match that starts here and is not empty is replaced. *)
Lemma replace_loop_hit (r : regex) (repl : jsstring) (fuel i : nat)
      (rest : jsstring) (e : nat) :
  match_at r i rest = Some e -> i < e ->
  replace_loop r repl (S fuel) i rest =
    repl ++ replace_loop r repl fuel e (skipn (e - i) rest).
Proof.
  intros Hm Hlt. rewrite replace_loop_S.
  assert (E : exec_from r i rest = Some (i, e)).
  { destruct rest; simpl; rewrite Hm; reflexivity. }
  rewrite E. replace (i - i) with 0 by lia. simpl firstn.
  assert (Hne : (e =? i) = false) by (apply Nat.eqb_neq; lia).
  rewrite Hne. reflexivity.
Qed.

(** Where no match starts, the unit is kept and the search goes on. *)
Lemma replace_loop_skip (r : regex) (repl : jsstring) (fuel i : nat)
      (x : N) (rest : jsstring) :
  match_at r i (x :: rest) = None ->
  replace_loop r repl (S fuel) i (x :: rest) =
    x :: replace_loop r repl (S fuel) (S i) rest.
Proof.
  intros Hm. rewrite !replace_loop_S.
  assert (E : exec_from r i (x :: rest) = exec_from r (S i) rest).
  { simpl. rewrite Hm. reflexivity. }
  rewrite E. destruct (exec_from r (S i) rest) as [[p e]|] eqn:Ex; [|reflexivity].
  apply exec_from_bounds in Ex.
  replace (p - i) with (S (p - S i)) by lia.
  replace (e - i) with (S (e - S i)) by lia.
  reflexivity.
Qed.

Lemma replace_loop_nil (r : regex) (repl : jsstring) (fuel i : nat) :
  match_at r i [] = None -> replace_loop r repl fuel i [] = [].
Proof.
  intros H. destruct fuel; [reflexivity|].
  rewrite replace_loop_S. simpl. rewrite H. reflexivity.
Qed.

(** Replacing a single character everywhere. *)
Lemma replace_loop_chr (c : N) (repl : jsstring) (rest : jsstring) :
  forall fuel i,
    length rest < fuel ->
    replace_loop (Chr c) repl fuel i rest =
      flat_map (fun x => if (x =? c)%N then repl else [x]) rest.
Proof.
  induction rest as [|x rest IH]; intros fuel i Hf.
  - apply replace_loop_nil. reflexivity.
  - destruct fuel as [|fuel]; [lia|]. simpl in Hf. simpl flat_map.
    destruct (x =? c)%N eqn:Exc.
    + rewrite (replace_loop_hit _ _ _ _ _ (S i)); [| |lia].
      * replace (S i - i) with 1 by lia. simpl skipn.
        rewrite IH by lia. reflexivity.
      * unfold match_at. simpl. rewrite Exc. reflexivity.
    + rewrite replace_loop_skip.
      * rewrite IH by lia. reflexivity.
      * unfold match_at. simpl. rewrite Exc. reflexivity.
Qed.

Lemma replace_global_chr (s : jsstring) (c : N) (repl : jsstring) :
  replace_global s (Chr c) repl =
    flat_map (fun x => if (x =? c)%N then repl else [x]) s.
Proof. unfold replace_global. apply replace_loop_chr. lia. Qed.

(* ------------------------------------------------------------------ *)
(** ** Runs of one character *)

Lemma drop_while_length (p : N -> bool) (s : jsstring) :
  length (drop_while p s) <= length s.
Proof.
  induction s as [|c s IH]; simpl; [lia|]. destruct (p c); simpl; lia.
Qed.

Lemma skipn_run (p : N -> bool) (s : jsstring) :
  skipn (length s - length (drop_while p s)) s = drop_while p s.
Proof.
  induction s as [|c s IH]; simpl; [reflexivity|].
  destruct (p c).
  - pose proof (drop_while_length p s).
    replace (S (length s) - length (drop_while p s))
      with (S (length s - length (drop_while p s))) by lia.
    simpl. exact IH.
  - simpl. replace (length s - length s) with 0 by lia. reflexivity.
Qed.

Lemma drop_while_all (p : N -> bool) (s : jsstring) :
  forallb p s = true -> drop_while p s = [].
Proof.
  induction s as [|c s IH]; simpl; [reflexivity|].
  destruct (p c); simpl; [exact IH|discriminate].
Qed.

Lemma drop_while_app (p : N -> bool) (a b : jsstring) :
  drop_while p (a ++ b) =
    if forallb p a then drop_while p b else drop_while p a ++ b.
Proof.
  induction a as [|c a IH]; simpl; [reflexivity|].
  destruct (p c); simpl; [exact IH|reflexivity].
Qed.

Lemma forallb_rev (p : N -> bool) (s : jsstring) :
  forallb p (rev s) = forallb p s.
Proof.
  induction s as [|c s IH]; simpl; [reflexivity|].
  rewrite forallb_app, IH. simpl. rewrite andb_true_r. apply andb_comm.
Qed.

Lemma strip_end_cons (p : N -> bool) (x : N) (s : jsstring) :
  strip_end p (x :: s) =
    if forallb p (x :: s) then [] else x :: strip_end p s.
Proof.
  unfold strip_end. simpl rev. rewrite drop_while_app, forallb_rev. simpl forallb.
  destruct (forallb p s) eqn:Es.
  - rewrite (drop_while_all p (rev s)) by (rewrite forallb_rev; exact Es).
    simpl. destruct (p x); reflexivity.
  - rewrite andb_false_r, rev_app_distr. reflexivity.
Qed.

(** Greedy repetition of one character, when the rest of the pattern
    accepts anything: the whole run is taken. *)
Lemma star_chr_accept (c : N) (k : cont) :
  (forall j s, k j s = Some j) ->
  forall s fuel i,
    length s <= fuel ->
    star_loop (re_match (Chr c)) k fuel i s =
      Some (i + (length s - length (drop_while (fun x => (x =? c)%N) s))).
Proof.
  intros Hk.
  set (body := re_match (Chr c)).
  assert (Hb : forall k' j x r,
             body k' j (x :: r) = if (x =? c)%N then k' (S j) r else None)
    by reflexivity.
  assert (Hn : forall k' j, body k' j [] = None) by reflexivity.
  clearbody body.
  induction s as [|x s IH]; intros fuel i Hf.
  - simpl. replace (i + 0) with i by lia.
    destruct fuel; [apply Hk|]. rewrite star_loop_S, Hn. apply Hk.
  - destruct fuel as [|fuel]; simpl in Hf; [lia|].
    rewrite star_loop_S, Hb. simpl drop_while.
    destruct (x =? c)%N.
    + rewrite ltb_succ, IH by lia.
      pose proof (drop_while_length (fun x => (x =? c)%N) s).
      f_equal. simpl length. lia.
    + rewrite Hk. f_equal. simpl length. lia.
Qed.

(** Greedy repetition of one character, when the rest of the pattern is
    the end of the input: the run must reach the end. *)
Lemma star_chr_eol (c : N) (k : cont) :
  (forall j s, k j s = match s with [] => Some j | _ :: _ => None end) ->
  forall s fuel i,
    length s <= fuel ->
    star_loop (re_match (Chr c)) k fuel i s =
      if forallb (fun x => (x =? c)%N) s then Some (i + length s) else None.
Proof.
  intros Hk.
  set (body := re_match (Chr c)).
  assert (Hb : forall k' j x r,
             body k' j (x :: r) = if (x =? c)%N then k' (S j) r else None)
    by reflexivity.
  assert (Hn : forall k' j, body k' j [] = None) by reflexivity.
  clearbody body.
  induction s as [|x s IH]; intros fuel i Hf.
  - simpl. replace (i + 0) with i by lia.
    destruct fuel; [apply Hk|]. rewrite star_loop_S, Hn. apply Hk.
  - destruct fuel as [|fuel]; simpl in Hf; [lia|].
    rewrite star_loop_S, Hb. simpl forallb.
    destruct (x =? c)%N; simpl.
    + rewrite ltb_succ, IH by lia.
      destruct (forallb _ s).
      * f_equal. lia.
      * apply Hk.
    + apply Hk.
Qed.

(* ------------------------------------------------------------------ *)
(** ** Underscores at the edges *)

Lemma edge_nil (i : nat) : match_at edge_underscores i [] = None.
Proof. destruct i; reflexivity. Qed.

Lemma edge_other (i : nat) (x : N) (s : jsstring) :
  is_underscore x = false -> match_at edge_underscores i (x :: s) = None.
Proof.
  unfold is_underscore. intros Hx. unfold match_at, edge_underscores, Plus.
  cbn -[star_loop length]. rewrite Hx. destruct (i =? 0); reflexivity.
Qed.

(** At the start of the input the leading run is matched. *)
Lemma edge_leading (x : N) (s : jsstring) :
  is_underscore x = true ->
  match_at edge_underscores 0 (x :: s) =
    Some (S (length s - length (drop_while is_underscore s))).
Proof.
  unfold is_underscore. intros Hx. unfold match_at, edge_underscores, Plus.
  cbn -[star_loop length]. rewrite Hx.
  rewrite (star_chr_accept 95) by (reflexivity || lia). reflexivity.
Qed.

(** Further on only a run that reaches the end is matched. *)
Lemma edge_trailing (i : nat) (x : N) (s : jsstring) :
  match_at edge_underscores (S i) (x :: s) =
    if forallb is_underscore (x :: s) then Some (S (S i) + length s) else None.
Proof.
  unfold match_at, edge_underscores, Plus.
  cbn -[star_loop length]. fold (is_underscore x).
  destruct (is_underscore x); [|reflexivity].
  rewrite (star_chr_eol 95) by (reflexivity || lia). simpl.
  destruct (forallb _ s); reflexivity.
Qed.

Lemma replace_edge_tail (s : jsstring) :
  forall fuel i,
    length s < fuel ->
    replace_loop edge_underscores [] fuel (S i) s = strip_end is_underscore s.
Proof.
  induction s as [|x s IH]; intros fuel i Hf.
  - apply replace_loop_nil, edge_nil.
  - destruct fuel as [|fuel]; [lia|]. simpl in Hf.
    rewrite strip_end_cons.
    pose proof (edge_trailing i x s) as Hm.
    destruct (forallb is_underscore (x :: s)).
    + rewrite (replace_loop_hit _ _ _ _ _ _ Hm) by lia.
      replace (S (S i) + length s - S i) with (S (length s)) by lia.
      simpl skipn. rewrite skipn_all. simpl. apply replace_loop_nil, edge_nil.
    + rewrite (replace_loop_skip _ _ _ _ _ _ Hm), IH by lia. reflexivity.
Qed.

(** The second replacement of [pagePath] strips the underscores of both
    ends and leaves all others. *)
Lemma replace_edge_underscores (s : jsstring) :
  replace_global s edge_underscores [] = strip_underscores s.
Proof.
  unfold replace_global, strip_underscores.
  destruct s as [|x s]; [reflexivity|].
  simpl drop_while. destruct (is_underscore x) eqn:Hx.
  - rewrite (replace_loop_hit _ _ _ _ _ _ (edge_leading x s Hx)) by lia.
    rewrite Nat.sub_0_r. simpl skipn. rewrite skipn_run, app_nil_l.
    apply replace_edge_tail.
    pose proof (drop_while_length is_underscore s). simpl. lia.
  - rewrite (replace_loop_skip _ _ _ _ _ _ (edge_other 0 x s Hx)).
    rewrite replace_edge_tail by (simpl; lia).
    rewrite strip_end_cons. simpl. rewrite Hx. reflexivity.
Qed.

(* ------------------------------------------------------------------ *)
(** ** File names and CSV contents *)

Lemma replace_slashes (s : jsstring) :
  replace_global s (Chr 47) (str "_") = slashes_to_underscores s.
Proof.
  rewrite replace_global_chr. unfold slashes_to_underscores.
  induction s as [|c s IH]; simpl; [reflexivity|].
  rewrite IH. destruct (c =? 47)%N; reflexivity.
Qed.

Lemma pagePath_eq (urlObj : URL) :
  pagePath urlObj =
    match strip_underscores (slashes_to_underscores (pathname urlObj)) with
    | [] => str "homepage"
    | c :: slug => c :: slug
    end.
Proof.
  unfold pagePath. rewrite replace_slashes, replace_edge_underscores.
  destruct (strip_underscores _); reflexivity.
Qed.

Lemma forallb_drop_while (q p : N -> bool) (s : jsstring) :
  forallb q s = true -> forallb q (drop_while p s) = true.
Proof.
  induction s as [|c s IH]; simpl; [reflexivity|].
  intros H. apply andb_true_iff in H as [Hc Hs].
  destruct (p c); [apply IH; exact Hs|]. simpl. rewrite Hc, Hs. reflexivity.
Qed.

Lemma forallb_strip_underscores (q : N -> bool) (s : jsstring) :
  forallb q s = true -> forallb q (strip_underscores s) = true.
Proof.
  intros H. unfold strip_underscores, strip_end.
  rewrite forallb_rev. apply forallb_drop_while.
  rewrite forallb_rev. apply forallb_drop_while. exact H.
Qed.

Lemma strip_underscores_edges (s : jsstring) :
  drop_while is_underscore (strip_underscores s) = strip_underscores s /\
  drop_while is_underscore (rev (strip_underscores s)) = rev (strip_underscores s).
Proof.
  unfold strip_underscores, strip_end. split.
  - apply drop_end_keeps_start, drop_while_idem.
  - rewrite rev_involutive. apply drop_while_idem.
Qed.

(** C5. The file name stem is the path with every slash turned into an
    underscore and the underscores of both ends stripped, or [homepage]
    when nothing is left: it holds no slash and neither starts nor ends
    with an underscore. The three paths of the specification give
    [homepage], [about_team] and [a], whatever the rest of the URL is. *)
Theorem pagePath_slug (urlObj : URL) (scheme authority query fragment : jsstring) :
  pagePath urlObj =
    match strip_underscores (slashes_to_underscores (pathname urlObj)) with
    | [] => str "homepage"
    | c :: slug => c :: slug
    end /\
  forallb (fun c => negb (c =? 47)%N) (pagePath urlObj) = true /\
  drop_while is_underscore (pagePath urlObj) = pagePath urlObj /\
  drop_while is_underscore (rev (pagePath urlObj)) = rev (pagePath urlObj) /\
  pagePath (mkURL scheme authority (str "/") query fragment) = str "homepage" /\
  pagePath (mkURL scheme authority (str "/about/team") query fragment)
    = str "about_team" /\
  pagePath (mkURL scheme authority (str "///a//") query fragment) = str "a".
Proof.
  split; [apply pagePath_eq|].
  rewrite pagePath_eq.
  assert (Hs : forallb (fun c => negb (c =? 47)%N)
                 (strip_underscores (slashes_to_underscores (pathname urlObj)))
               = true).
  { apply forallb_strip_underscores. unfold slashes_to_underscores.
    induction (pathname urlObj) as [|c s IH]; simpl; [reflexivity|].
    rewrite IH, andb_true_r. destruct (c =? 47)%N eqn:E; [reflexivity|].
    rewrite E. reflexivity. }
  destruct (strip_underscores_edges (slashes_to_underscores (pathname urlObj)))
    as [Hl Hr].
  destruct (strip_underscores (slashes_to_underscores (pathname urlObj)))
    as [|c slug].
  - repeat split; vm_compute; reflexivity.
  - split; [exact Hs|]. split; [exact Hl|]. split; [exact Hr|].
    repeat split; vm_compute; reflexivity.
Qed.

Lemma csvField_eq (text : jsstring) :
  csvField text = [dquote] ++ double_quotes text ++ [dquote].
Proof. unfold csvField. rewrite replace_global_chr. reflexivity. Qed.

(* ------------------------------------------------------------------ *)
(** ** Trees: keys, copies and descendants *)

Lemma flat_map_ext_in {A B} (f g : A -> list B) (l : list A) :
  (forall x, In x l -> f x = g x) -> flat_map f l = flat_map g l.
Proof.
  induction l as [|x l IH]; intros H; simpl; [reflexivity|].
  rewrite (H x) by (left; reflexivity).
  rewrite IH; [reflexivity|]. intros y Hy. apply H. right. exact Hy.
Qed.

Lemma flat_map_singleton {A} (l : list A) : flat_map (fun x => [x]) l = l.
Proof. induction l as [|x l IH]; simpl; [reflexivity|]. rewrite IH. reflexivity. Qed.

Lemma child_is_descendant (k : nat) (t : jsstring) (a : attributes)
      (cs : list node) (c : node) :
  In c cs -> In c (descendants (Element k t a cs)).
Proof.
  intros H. simpl. apply in_flat_map. exists c. split; [exact H|left; reflexivity].
Qed.

Lemma descendant_of_child (k : nat) (t : jsstring) (a : attributes)
      (cs : list node) (c d : node) :
  In c cs -> In d (descendants c) -> In d (descendants (Element k t a cs)).
Proof.
  intros H Hd. simpl. apply in_flat_map. exists c. split; [exact H|right; exact Hd].
Qed.

Lemma descendants_inv (k : nat) (t : jsstring) (a : attributes)
      (cs : list node) (d : node) :
  In d (descendants (Element k t a cs)) ->
  exists c, In c cs /\ (d = c \/ In d (descendants c)).
Proof.
  simpl. intros H. apply in_flat_map in H as (c & Hc & [E|Hd]).
  - exists c. split; [exact Hc|left; symmetry; exact E].
  - exists c. split; [exact Hc|right; exact Hd].
Qed.

Lemma keys_descendants (n : node) :
  keys n = key_of n :: List.map key_of (descendants n).
Proof.
  induction n as [k d|k d|k t a cs IH] using node_induction; try reflexivity.
  simpl. f_equal.
  induction IH as [|c cs Hc _ IHcs]; [reflexivity|].
  simpl. rewrite List.map_app, <- IHcs, Hc. reflexivity.
Qed.

Lemma clone_tree_element (fresh k : nat) (t : jsstring) (a : attributes)
      (cs : list node) :
  clone_tree fresh (Element k t a cs) =
    (Element fresh t a (fst (clone_forest (S fresh) cs)),
     snd (clone_forest (S fresh) cs)).
Proof.
  change (clone_tree fresh (Element k t a cs))
    with (let '(cs', next) := clone_forest (S fresh) cs in
          (Element fresh t a cs', next)).
  destruct (clone_forest (S fresh) cs). reflexivity.
Qed.

Lemma clone_forest_cons (fresh : nat) (c : node) (l : list node) :
  clone_forest fresh (c :: l) =
    (fst (clone_tree fresh c)
       :: fst (clone_forest (snd (clone_tree fresh c)) l),
     snd (clone_forest (snd (clone_tree fresh c)) l)).
Proof.
  simpl. destruct (clone_tree fresh c) as [c' next]. cbn [fst snd].
  destruct (clone_forest next l). reflexivity.
Qed.

Lemma matches_clone (sel : list (list simple_selector)) (fresh : nat) (n : node) :
  matches sel (fst (clone_tree fresh n)) = matches sel n.
Proof.
  destruct n; try reflexivity. rewrite clone_tree_element. reflexivity.
Qed.

Lemma removable_clone (fresh : nat) (n : node) :
  removable (fst (clone_tree fresh n)) = removable n.
Proof. unfold removable. rewrite !matches_clone. reflexivity. Qed.

(** The copy has the keys from [fresh] on, in tree order, and the text of
    the original. *)
Lemma clone_tree_spec (n : node) :
  forall fresh,
    key_of (fst (clone_tree fresh n)) = fresh /\
    List.map key_of (descendants (fst (clone_tree fresh n)))
      = seq (S fresh) (length (descendants n)) /\
    snd (clone_tree fresh n) = S fresh + length (descendants n) /\
    kept_text (fst (clone_tree fresh n)) = kept_text n.
Proof.
  induction n as [k d|k d|k t a cs IH] using node_induction; intros fresh;
    try (simpl; repeat split; lia).
  rewrite clone_tree_element. cbn [fst snd key_of].
  split; [reflexivity|].
  assert (H : forall f,
             List.map key_of
               (flat_map (fun c => c :: descendants c) (fst (clone_forest f cs)))
             = seq f (length (flat_map (fun c => c :: descendants c) cs)) /\
             snd (clone_forest f cs)
             = f + length (flat_map (fun c => c :: descendants c) cs) /\
             List.map (fun c => if removable c then [] else kept_text c)
                      (fst (clone_forest f cs))
             = List.map (fun c => if removable c then [] else kept_text c) cs).
  { induction IH as [|c cs Hc _ IHcs]; intros f.
    - simpl. repeat split. lia.
    - rewrite clone_forest_cons. cbn [fst snd flat_map List.map].
      destruct (Hc f) as (Hk & Hd & Hn & Ht).
      destruct (IHcs (snd (clone_tree f c))) as (Hd' & Hn' & Ht').
      rewrite List.map_app. cbn [List.map].
      rewrite Hd, Hk, Hd', Hn', Ht', removable_clone, Ht, Hn.
      rewrite !length_app. cbn [length plus seq app].
      rewrite List.seq_app. repeat split. lia. }
  destruct (H (S fresh)) as (Hd & Hn & Ht).
  cbn [descendants kept_text]. rewrite Hd, Hn, Ht. repeat split.
Qed.

(* ------------------------------------------------------------------ *)
(** ** Selecting and removing nodes *)

Lemma key_without (s : list (list simple_selector)) (n : node) :
  key_of (without s n) = key_of n.
Proof. destruct n; reflexivity. Qed.

Lemma key_remove (x : nat) (n : node) : key_of (remove x n) = key_of n.
Proof. destruct n; reflexivity. Qed.

(** Whether an element matches depends on its name and attributes only. *)
Lemma matches_without (sel s : list (list simple_selector)) (n : node) :
  matches sel (without s n) = matches sel n.
Proof. destruct n; reflexivity. Qed.

Lemma removable_without (s : list (list simple_selector)) (n : node) :
  removable (without s n) = removable n.
Proof. unfold removable. rewrite !matches_without. reflexivity. Qed.

(** The static list holds the keys of the matching descendants. *)
Lemma querySelectorAll_spec (sel : list (list simple_selector)) (n : node) :
  querySelectorAll n sel =
    List.map key_of (List.filter (matches sel) (descendants n)).
Proof.
  induction n as [k d|k d|k t a cs IH] using node_induction; try reflexivity.
  cbn [querySelectorAll descendants].
  induction IH as [|c cs Hc _ IHcs]; [reflexivity|].
  cbn [flat_map]. rewrite List.filter_app, List.map_app, <- IHcs, Hc.
  cbn [List.filter]. destruct (matches sel c); reflexivity.
Qed.

(** A node that is not in the tree cannot leave it. *)
Lemma remove_absent (x : nat) (n : node) :
  ~ In x (keys n) -> remove x n = n.
Proof.
  induction n as [k d|k d|k t a cs IH] using node_induction; try reflexivity.
  intros Hx. simpl. f_equal.
  rewrite <- (flat_map_singleton cs) at 2.
  apply flat_map_ext_in. intros c Hc.
  assert (Hsub : forall y, In y (keys c) -> In y (keys (Element k t a cs))).
  { intros y Hy. simpl. right. apply in_flat_map. exists c. split; assumption. }
  assert (Hk : key_of c <> x).
  { intros E. apply Hx, Hsub. rewrite keys_descendants. left. exact E. }
  apply Nat.eqb_neq in Hk. rewrite Hk.
  rewrite List.Forall_forall in IH. rewrite (IH c Hc); [reflexivity|].
  intros Hin. apply Hx, Hsub. exact Hin.
Qed.

Lemma without_keys_nil (n : node) : without_keys [] n = n.
Proof.
  induction n as [k d|k d|k t a cs IH] using node_induction; try reflexivity.
  simpl. f_equal. rewrite <- (flat_map_singleton cs) at 2.
  apply flat_map_ext_in. intros c Hc.
  rewrite List.Forall_forall in IH. rewrite (IH c Hc). reflexivity.
Qed.

Lemma without_keys_remove (x : nat) (xs : list nat) (n : node) :
  without_keys xs (remove x n) = without_keys (x :: xs) n.
Proof.
  induction n as [k d|k d|k t a cs IH] using node_induction; try reflexivity.
  simpl. f_equal.
  induction IH as [|c cs Hc _ IHcs]; [reflexivity|].
  simpl. rewrite flat_map_app, IHcs. f_equal.
  destruct (key_of c =? x) eqn:E; [reflexivity|].
  simpl. rewrite key_remove, Hc, app_nil_r. reflexivity.
Qed.

(** Removing the nodes of a list one after the other leaves the tree
    without all of them. *)
Lemma remove_each (xs : list nat) :
  forall n, fold_left (fun t x => remove x t) xs n = without_keys xs n.
Proof.
  induction xs as [|x xs IH]; intros n; simpl.
  - symmetry. apply without_keys_nil.
  - rewrite IH. apply without_keys_remove.
Qed.

Lemma forEach_remove_pair (xs : list nat) :
  forall a b,
    forEach_remove xs (a, b) =
      (fold_left (fun t x => remove x t) xs a,
       fold_left (fun t x => remove x t) xs b).
Proof.
  unfold forEach_remove.
  induction xs as [|x xs IH]; intros a b; simpl; [reflexivity|apply IH].
Qed.

Lemma remove_each_absent (xs : list nat) :
  forall n, (forall x, In x xs -> ~ In x (keys n)) ->
            fold_left (fun t x => remove x t) xs n = n.
Proof.
  induction xs as [|x xs IH]; intros n H; simpl; [reflexivity|].
  rewrite remove_absent by (apply H; left; reflexivity).
  apply IH. intros y Hy. apply H. right. exact Hy.
Qed.

(** A list of keys that holds exactly the keys of the matching descendants
    removes what the selector removes. *)
Lemma without_keys_selector (sel : list (list simple_selector))
      (xs : list nat) (n : node) :
  (forall d, In d (descendants n) ->
             existsb (Nat.eqb (key_of d)) xs = matches sel d) ->
  without_keys xs n = without sel n.
Proof.
  induction n as [k d|k d|k t a cs IH] using node_induction; try reflexivity.
  intros H. simpl. f_equal. apply flat_map_ext_in. intros c Hc.
  rewrite (H c) by (apply child_is_descendant; exact Hc).
  destruct (matches sel c); [reflexivity|].
  rewrite List.Forall_forall in IH. rewrite (IH c Hc); [reflexivity|].
  intros d Hd. apply H. eapply descendant_of_child; eassumption.
Qed.

Lemma coherent_selected (sel : list (list simple_selector)) (n : node) :
  coherent n ->
  forall d, In d (descendants n) ->
            existsb (Nat.eqb (key_of d)) (querySelectorAll n sel) = matches sel d.
Proof.
  intros Hco d Hd. rewrite querySelectorAll_spec.
  destruct (matches sel d) eqn:Em.
  - apply existsb_exists. exists (key_of d). split; [|apply Nat.eqb_refl].
    apply in_map. apply filter_In. split; assumption.
  - destruct (existsb _ _) eqn:Ex; [|reflexivity].
    apply existsb_exists in Ex as (x & Hx & Ek).
    apply in_map_iff in Hx as (d' & <- & Hd').
    apply filter_In in Hd' as [Hd' Em'].
    apply Nat.eqb_eq in Ek.
    rewrite (Hco sel d d' Hd Hd' Ek), Em' in Em. discriminate.
Qed.

(** What [querySelectorAll] and [forEach] with [remove] do to a tree whose
    keys tell its nodes apart. *)
Lemma select_and_remove (sel : list (list simple_selector)) (n : node) :
  coherent n ->
  fold_left (fun t x => remove x t) (querySelectorAll n sel) n = without sel n.
Proof.
  intros Hco. rewrite remove_each.
  apply without_keys_selector. apply coherent_selected. exact Hco.
Qed.

Lemma descendants_without (s : list (list simple_selector)) (n : node) :
  forall d, In d (descendants (without s n)) ->
            exists d0, In d0 (descendants n) /\ d = without s d0.
Proof.
  induction n as [k x|k x|k t a cs IH] using node_induction;
    try (intros d []).
  intros d Hd. apply descendants_inv in Hd as (c' & Hc' & Hd).
  apply in_flat_map in Hc' as (c & Hc & Hc').
  destruct (matches s c); [destruct Hc'|].
  destruct Hc' as [<-|[]].
  destruct Hd as [->|Hd].
  - exists c. split; [apply child_is_descendant; exact Hc|reflexivity].
  - rewrite List.Forall_forall in IH.
    destruct (IH c Hc d Hd) as (d0 & Hd0 & ->).
    exists d0. split; [|reflexivity].
    eapply descendant_of_child; eassumption.
Qed.

Lemma coherent_without (s : list (list simple_selector)) (n : node) :
  coherent n -> coherent (without s n).
Proof.
  intros Hco sel d d' Hd Hd' Ek.
  apply descendants_without in Hd as (d0 & Hd0 & ->).
  apply descendants_without in Hd' as (d0' & Hd0' & ->).
  rewrite !key_without in Ek. rewrite !matches_without.
  apply Hco; assumption.
Qed.

Lemma NoDup_map_injective {A B} (f : A -> B) (l : list A) :
  List.NoDup (List.map f l) ->
  forall x y, In x l -> In y l -> f x = f y -> x = y.
Proof.
  induction l as [|a l IH]; intros Hnd x y Hx Hy E; [destruct Hx|].
  simpl in Hnd. inversion Hnd as [|? ? Hna Hnd']; subst.
  destruct Hx as [->|Hx], Hy as [->|Hy].
  - reflexivity.
  - exfalso. apply Hna. rewrite E. apply in_map. exact Hy.
  - exfalso. apply Hna. rewrite <- E. apply in_map. exact Hx.
  - apply IH; assumption.
Qed.

(** A fresh copy is coherent: its keys are all different. *)
Lemma coherent_clone (fresh : nat) (n : node) :
  coherent (fst (clone_tree fresh n)).
Proof.
  intros sel d d' Hd Hd' Ek.
  destruct (clone_tree_spec n fresh) as (_ & Hkeys & _).
  assert (E : d = d').
  { apply (NoDup_map_injective key_of (descendants (fst (clone_tree fresh n))));
      try assumption.
    rewrite Hkeys. apply List.seq_NoDup. }
  rewrite E. reflexivity.
Qed.

(* ------------------------------------------------------------------ *)
(** ** Content isolation *)

Lemma removable_isolated (n : node) : removable (isolated n) = removable n.
Proof. unfold isolated. rewrite !removable_without. reflexivity. Qed.

(** The four passes together keep exactly the children that are not
    removable, each isolated in turn. *)
Lemma isolated_element (k : nat) (t : jsstring) (a : attributes)
      (cs : list node) :
  isolated (Element k t a cs) =
    Element k t a
            (flat_map (fun c => if removable c then [] else [isolated c]) cs).
Proof.
  unfold isolated. simpl. f_equal.
  induction cs as [|c cs IH]; [reflexivity|].
  simpl flat_map. rewrite !flat_map_app, IH. f_equal.
  unfold removable.
  destruct (matches Ennovi.scriptSelectors c) eqn:E1; [reflexivity|].
  simpl flat_map. rewrite matches_without.
  destruct (matches Ennovi.headerSelectors c) eqn:E2; [reflexivity|].
  simpl flat_map. rewrite !matches_without.
  destruct (matches Ennovi.footerSelectors c) eqn:E3; [reflexivity|].
  simpl flat_map. rewrite !matches_without.
  destruct (matches Ennovi.hiddenSelectors c) eqn:E4; reflexivity.
Qed.

Lemma isolated_text (n : node) : descendant_text (isolated n) = kept_text n.
Proof.
  induction n as [k d|k d|k t a cs IH] using node_induction; try reflexivity.
  rewrite isolated_element. simpl.
  induction IH as [|c cs Hc _ IHcs]; [reflexivity|].
  simpl. rewrite <- IHcs.
  destruct (removable c); [reflexivity|].
  simpl. rewrite Hc. reflexivity.
Qed.

Lemma isolated_clean (n : node) :
  List.Forall (fun d => removable d = false) (descendants (isolated n)).
Proof.
  induction n as [k d|k d|k t a cs IH] using node_induction;
    try (constructor; fail).
  rewrite isolated_element. simpl.
  induction IH as [|c cs Hc _ IHcs]; [constructor|].
  simpl. destruct (removable c) eqn:Ec; [exact IHcs|].
  simpl. constructor.
  - rewrite removable_isolated. exact Ec.
  - apply List.Forall_app. split; assumption.
Qed.

Lemma above_without (fresh : nat) (s : list (list simple_selector)) (n : node) :
  above fresh n -> above fresh (without s n).
Proof.
  intros H d Hd. apply descendants_without in Hd as (d0 & Hd0 & ->).
  rewrite key_without. apply H. exact Hd0.
Qed.

Lemma above_clone (fresh : nat) (n : node) :
  above fresh (fst (clone_tree fresh n)).
Proof.
  intros d Hd. destruct (clone_tree_spec n fresh) as (_ & Hkeys & _).
  apply (in_map key_of) in Hd. rewrite Hkeys in Hd.
  apply List.in_seq in Hd. lia.
Qed.

(** The nodes selected in a tree made after [fresh] are none of a tree
    whose keys are all below [fresh]. *)
Lemma selected_absent (fresh : nat) (sel : list (list simple_selector))
      (n el : node) :
  above fresh n -> List.Forall (fun x => x < fresh) (keys el) ->
  forall x, In x (querySelectorAll n sel) -> ~ In x (keys el).
Proof.
  intros Hn Hel x Hx Hin. rewrite querySelectorAll_spec in Hx.
  apply in_map_iff in Hx as (d & <- & Hd). apply filter_In in Hd as [Hd _].
  rewrite List.Forall_forall in Hel. specialize (Hel _ Hin).
  specialize (Hn d Hd). lia.
Qed.

Lemma fresh_key_above (n : node) :
  List.Forall (fun x => x < fresh_key n) (keys n).
Proof.
  apply List.Forall_forall. intros x Hx. unfold fresh_key.
  pose proof (proj1 (List.list_max_le (keys n) (list_max (keys n)))
                    (Nat.le_refl _)) as H.
  rewrite List.Forall_forall in H. specialize (H x Hx). lia.
Qed.

(** The callback, pass by pass. *)
Lemma contentText_eq (fresh : nat) (el : node) :
  List.Forall (fun x => x < fresh) (keys el) ->
  Ennovi.contentText fresh el =
    (el, textContent (isolated (fst (clone_tree fresh el)))).
Proof.
  intros Hel. unfold Ennovi.contentText, cloneNode, isolated.
  pose proof (coherent_clone fresh el) as Hco.
  pose proof (above_clone fresh el) as Hab.
  destruct (clone_tree fresh el) as [c0 next]. cbn [fst] in *.
  cbv zeta.
  rewrite forEach_remove_pair, select_and_remove by exact Hco.
  rewrite remove_each_absent by (apply (selected_absent fresh); assumption).
  apply (coherent_without Ennovi.scriptSelectors) in Hco.
  apply (above_without fresh Ennovi.scriptSelectors) in Hab.
  rewrite forEach_remove_pair, select_and_remove by exact Hco.
  rewrite remove_each_absent by (apply (selected_absent fresh); assumption).
  apply (coherent_without Ennovi.headerSelectors) in Hco.
  apply (above_without fresh Ennovi.headerSelectors) in Hab.
  rewrite forEach_remove_pair, select_and_remove by exact Hco.
  rewrite remove_each_absent by (apply (selected_absent fresh); assumption).
  apply (coherent_without Ennovi.footerSelectors) in Hco.
  apply (above_without fresh Ennovi.footerSelectors) in Hab.
  rewrite forEach_remove_pair, select_and_remove by exact Hco.
  rewrite remove_each_absent by (apply (selected_absent fresh); assumption).
  reflexivity.
Qed.

Lemma jsstring_eqb_eq (a b : jsstring) : jsstring_eqb a b = true <-> a = b.
Proof.
  revert b. induction a as [|x a IH]; intros [|y b]; simpl;
    try (split; [discriminate|discriminate]); [tauto|].
  rewrite andb_true_iff, N.eqb_eq, IH. split.
  - intros [-> ->]. reflexivity.
  - intros E. injection E as -> ->. split; reflexivity.
Qed.

Lemma has_class_in (c : jsstring) (l : list jsstring) :
  existsb (jsstring_eqb c) l = true <-> In c l.
Proof.
  rewrite existsb_exists. split.
  - intros (x & Hx & E). apply jsstring_eqb_eq in E. subst x. exact Hx.
  - intros H. exists c. split; [exact H|]. apply jsstring_eqb_eq. reflexivity.
Qed.

Lemma has_value (o : option jsstring) (v : jsstring) :
  match o with Some x => jsstring_eqb x v | None => false end = true
  <-> o = Some v.
Proof.
  destruct o as [x|]; [|split; discriminate].
  rewrite jsstring_eqb_eq. split; [intros ->; reflexivity|].
  intros E. injection E as ->. reflexivity.
Qed.

(** The four selector lists of the script take out what the specification
    names, and nothing else. *)
Lemma removable_taken_out (n : node) : removable n = true <-> taken_out n.
Proof.
  destruct n as [k d|k d|k tag a cs]; try (split; [discriminate|intros []]).
  unfold removable, matches, taken_out, Ennovi.scriptSelectors,
    Ennovi.headerSelectors, Ennovi.footerSelectors, Ennovi.hiddenSelectors.
  cbn [existsb forallb matches_simple].
  rewrite !andb_true_r, !orb_false_r.
  rewrite !orb_true_iff, !andb_true_iff.
  rewrite !jsstring_eqb_eq, !has_class_in, !has_value.
  tauto.
Qed.

Lemma kept_text_left (n : node) : text_left n (kept_text n).
Proof.
  induction n as [k d|k d|k t a cs IH] using node_induction;
    try (constructor; fail).
  cbn [kept_text]. constructor.
  induction IH as [|c cs Hc _ IHcs]; [constructor|].
  cbn [List.map]. constructor; [|exact IHcs].
  destruct (removable c) eqn:E.
  - left. split; [apply removable_taken_out; exact E|reflexivity].
  - right. split; [|exact Hc].
    intros H. apply removable_taken_out in H. congruence.
Qed.

Lemma text_left_unique (n : node) :
  forall s, text_left n s -> s = kept_text n.
Proof.
  induction n as [k d|k d|k t a cs IH] using node_induction; intros s H;
    inversion H as [| |? ? ? ? parts Hparts]; subst; try reflexivity.
  cbn [kept_text]. f_equal. clear H.
  revert parts Hparts. induction IH as [|c cs Hc _ IHcs]; intros parts Hparts;
    inversion Hparts as [|? part ? parts' Hpart Hrest]; subst; [reflexivity|].
  cbn [List.map]. f_equal; [|apply IHcs; exact Hrest].
  destruct Hpart as [[Hout ->]|[Hout Hpart]].
  - apply removable_taken_out in Hout. rewrite Hout. reflexivity.
  - destruct (removable c) eqn:E.
    + exfalso. apply Hout, removable_taken_out. exact E.
    + apply Hc. exact Hpart.
Qed.

(** C7. The callback of the second script makes a copy of the container
    out of new nodes and removes from the copy only: the container is left
    as it was and shares no node with the copy. The four selector lists
    of the script take out exactly what the specification names: a script,
    style or noscript element, a header or footer by tag, role, class or
    id, and an element with all three hidden classes. After the four
    passes none of these is left below the copy, and the string returned
    is its text content, which is the one text the specification allows:
    the text of all that is not under an element taken out, the text of an
    element hidden on some breakpoints only included. The key the script starts the copy from is above all keys of
    the container. *)
Theorem content_isolation (fresh k : nat) (t : jsstring) (a : attributes)
        (cs : list node) :
  let el := Element k t a cs in
  let clone := isolated (fst (cloneNode true fresh el)) in
  List.Forall (fun x => x < fresh) (keys el) ->
  fst (Ennovi.contentText fresh el) = el /\
  snd (Ennovi.contentText fresh el) = textContent clone /\
  (forall n, removable n = true <-> taken_out n) /\
  List.Forall (fun d => ~ taken_out d /\ removable d = false /\
                        ~ In (key_of d) (keys el))
              (descendants clone) /\
  snd (Ennovi.contentText fresh el) = kept_text el /\
  (forall s, text_left el s <-> s = snd (Ennovi.contentText fresh el)) /\
  List.Forall (fun x => x < fresh_key el) (keys el) /\
  snd (Ennovi.contentText (fresh_key sample_container) sample_container)
  = str "Opening hours".
Proof.
  cbv zeta. intros Hel. unfold cloneNode.
  rewrite (contentText_eq fresh _ Hel). cbn [fst snd].
  split; [reflexivity|]. split; [reflexivity|].
  assert (Hkept : textContent (isolated (fst (clone_tree fresh (Element k t a cs))))
                  = kept_text (Element k t a cs)).
  { pose proof (isolated_text (fst (clone_tree fresh (Element k t a cs)))) as H.
    pose proof (clone_tree_spec (Element k t a cs) fresh) as (_ & _ & _ & Ht).
    rewrite <- Ht, <- H, clone_tree_element. cbn [fst].
    rewrite isolated_element. reflexivity. }
  split; [exact removable_taken_out|]. split; [|split; [|split; [|split]]].
  - apply List.Forall_forall. intros d Hd.
    assert (Hr : removable d = false).
    { pose proof (isolated_clean (fst (clone_tree fresh (Element k t a cs)))) as H.
      rewrite List.Forall_forall in H. apply H. exact Hd. }
    split; [|split; [exact Hr|]].
    + intros Hout. apply removable_taken_out in Hout. congruence.
    + intros Hin. rewrite List.Forall_forall in Hel. specialize (Hel _ Hin).
      assert (Hab : above fresh
                      (isolated (fst (clone_tree fresh (Element k t a cs))))).
      { unfold isolated. repeat apply above_without. apply above_clone. }
      specialize (Hab d Hd). lia.
  - exact Hkept.
  - intros s. rewrite Hkept. split.
    + apply text_left_unique.
    + intros ->. apply kept_text_left.
  - apply fresh_key_above.
  - vm_compute. reflexivity.
Qed.

Lemma content_isolation_witness :
  fst (Ennovi.contentText 9 sample_container) = sample_container /\
  snd (Ennovi.contentText 9 sample_container) = kept_text sample_container.
Proof.
  destruct (content_isolation 9 0 (str "div") (mkAttributes None None [])
              [Element 1 (str "script") (mkAttributes None None [])
                 [Text 2 (str "var a;")];
               Element 3 (str "div")
                 (mkAttributes None None
                    [str "elementor-hidden-desktop"; str "elementor-hidden-mobile"])
                 [Text 4 (str "Opening hours")];
               Element 5 (str "section")
                 (mkAttributes None None
                    [str "elementor-hidden-desktop"; str "elementor-hidden-tablet";
                     str "elementor-hidden-mobile"])
                 [Text 6 (str "never shown")];
               Element 7 (str "div") (mkAttributes None None [str "site-footer"])
                 [Text 8 (str "Imprint")]])
    as (H1 & _ & _ & _ & H2 & _).
  - vm_compute. repeat constructor.
  - split; [exact H1 | exact H2].
Defined.

(* ------------------------------------------------------------------ *)
(** ** Runs *)

Lemma csv_path_not_log (outputDir prefix slug : jsstring) (c : N) :
  c <> 102%N ->
  path_join outputDir ((c :: prefix) ++ slug)
  <> path_join outputDir (str "failed_scrapes.txt").
Proof.
  intros Hc H. unfold path_join in H. apply app_inv_head in H.
  vm_compute in H. injection H as H. apply Hc. exact H.
Qed.

Lemma interplex_path_not_log (outputDir : jsstring) (urlObj : URL) :
  TextScraper.filePath outputDir urlObj <> Ennovi.logFilePath outputDir.
Proof.
  unfold TextScraper.filePath, Ennovi.logFilePath.
  change (str "interplex_") with (105%N :: str "nterplex_").
  rewrite app_assoc. apply csv_path_not_log. discriminate.
Qed.

Lemma ennovi_path_not_log (outputDir : jsstring) (urlObj : URL) :
  Ennovi.filePath outputDir urlObj <> Ennovi.logFilePath outputDir.
Proof.
  unfold Ennovi.filePath, Ennovi.logFilePath.
  change (str "ennovi_") with (101%N :: str "nnovi_").
  rewrite app_assoc. apply csv_path_not_log. discriminate.
Qed.

Lemma join_cons (sep l : jsstring) (ls : list jsstring) :
  ls <> [] -> join sep (l :: ls) = l ++ sep ++ join sep ls.
Proof. destruct ls; [contradiction|reflexivity]. Qed.

(** The separator before every part instead of between the parts. *)
Lemma join_concat (sep l : jsstring) (ls : list jsstring) :
  sep ++ join sep (l :: ls) = concat (List.map (fun x => sep ++ x) (l :: ls)).
Proof.
  revert l. induction ls as [|l' ls IH]; intros l.
  - cbn [join List.map concat]. rewrite app_nil_r. reflexivity.
  - rewrite join_cons by discriminate.
    cbn [List.map concat] in *. rewrite <- IH, <- !app_assoc. reflexivity.
Qed.

(** The log the script writes is the log of the specification. *)
Lemma logContent_by_spec (item : Ennovi.failure) (fs : list Ennovi.failure) :
  Ennovi.logContent (item :: fs) = log_by_spec (item :: fs).
Proof.
  transitivity (log_header (length (item :: fs)) ++ [10%N]
                ++ ([10%N] ++ join [10%N] (List.map log_block (item :: fs)))).
  - unfold Ennovi.logContent, log_header. rewrite <- !app_assoc. reflexivity.
  - unfold log_by_spec. cbn [List.map].
    rewrite join_concat. cbn [List.map]. rewrite List.map_map. reflexivity.
Qed.

(** Every failure of the list has its block in the log. *)
Lemma log_lists_all (fs : list Ennovi.failure) :
  List.Forall (fun item => contains (log_block item) (Ennovi.logContent fs)) fs.
Proof.
  apply List.Forall_forall. intros item Hin.
  destruct fs as [|f fs]; [destruct Hin|].
  rewrite logContent_by_spec. unfold log_by_spec.
  apply in_split in Hin as (l1 & l2 & ->).
  rewrite List.map_app, concat_app. cbn [List.map concat].
  exists (log_header (length (l1 ++ item :: l2)) ++ [10%N]
          ++ concat (List.map (fun item => [10%N] ++ log_block item) l1)
          ++ [10%N]),
         (concat (List.map (fun item => [10%N] ++ log_block item) l2)).
  rewrite <- !app_assoc. reflexivity.
Qed.

(** A reason tells how the visit failed, unless an error was thrown with
    that very reason as its message. *)
Lemma reason_tells (o1 o2 : visit_outcome) (r : jsstring) :
  reason_of o1 = Some r -> reason_of o2 = Some r ->
  o1 = o2 \/ o1 = Thrown r \/ o2 = Thrown r.
Proof.
  destruct o1, o2; cbn [reason_of]; intros E1 E2; try discriminate;
    try (left; reflexivity);
    try (right; left; congruence); try (right; right; congruence);
    try (left; congruence).
  all: exfalso; rewrite <- E2 in E1; vm_compute in E1; discriminate.
Qed.

Section RunProperties.

Variable World : Type.
Variable visit : World -> jsstring -> World * result (option node).
Variable visit_text : World -> jsstring -> World * result (option jsstring).
Variable new_URL : jsstring -> result URL.
Variable outputDir : jsstring.

(** The [try] block ends as the outcome of the visit says. *)
Lemma attempt_classify (w : World) (url : jsstring) :
  Ennovi.attempt visit new_URL outputDir w url =
    (fst (visit w url),
     match classify new_URL outputDir url (snd (visit w url)) with
     | Thrown message => Throw message
     | MissingContainer =>
         Ok (Ennovi.Failed (str "No matching Elementor div found"))
     | NoSurvivingLines => Ok (Ennovi.Failed (str "No visible text found"))
     | Produced path data => Ok (Ennovi.Saved path data)
     end).
Proof.
  unfold Ennovi.attempt, classify.
  destruct (visit w url) as [w' [[el|]|message]]; simpl; try reflexivity.
  destruct (Ennovi.lines _) as [|l ls]; simpl; [reflexivity|].
  destruct (new_URL url); reflexivity.
Qed.

(** The loop keeps the files and the failure list of the trace. *)
Lemma loop_trace (urls : list jsstring) :
  forall st,
    fold_left (Ennovi.scrape visit new_URL outputDir) urls st =
      Ennovi.mkState
        (world_after visit (Ennovi.world st) urls)
        (produced (Ennovi.files st) (trace visit new_URL outputDir (Ennovi.world st) urls))
        (Ennovi.failedUrls st
         ++ failures (trace visit new_URL outputDir (Ennovi.world st) urls)).
Proof.
  induction urls as [|url urls IH]; intros st.
  - destruct st. simpl. rewrite app_nil_r. reflexivity.
  - cbn [fold_left]. rewrite IH. unfold Ennovi.scrape.
    rewrite attempt_classify. simpl trace. simpl world_after.
    destruct (visit (Ennovi.world st) url) as [w' r]. simpl fst. simpl snd.
    unfold failures, produced.
    destruct (classify new_URL outputDir url r); simpl;
      rewrite <- ?app_assoc; reflexivity.
Qed.

(** [textScraper.js] writes CSV files only. *)
Lemma textScraper_loop_log (urls : list jsstring) :
  forall w files,
    snd (fold_left (TextScraper.scrape visit_text new_URL outputDir) urls
                   (w, files)) !! Ennovi.logFilePath outputDir
    = files !! Ennovi.logFilePath outputDir.
Proof.
  induction urls as [|url urls IH]; intros w files; [reflexivity|].
  cbn [fold_left].
  destruct (TextScraper.scrape visit_text new_URL outputDir (w, files) url)
    as [w' files'] eqn:E.
  rewrite IH. unfold TextScraper.scrape in E.
  destruct (visit_text w url) as [w1 [[text|]|message]];
    try (injection E as _ <-; reflexivity).
  destruct (length (TextScraper.lines text) =? 0);
    [injection E as _ <-; reflexivity|].
  destruct (new_URL url) as [urlObj|message];
    injection E as _ <-; [|reflexivity].
  unfold writeFileSync.
  apply lookup_insert_ne. apply interplex_path_not_log.
Qed.

Lemma trace_targets (urls : list jsstring) :
  forall w, List.map fst (trace visit new_URL outputDir w urls) = urls.
Proof.
  induction urls as [|url urls IH]; intros w; [reflexivity|].
  simpl. destruct (visit w url) as [w' r]. simpl. rewrite IH. reflexivity.
Qed.

(** C4. In the second script every target has an outcome, and the
    failure list after the loop holds, in the order of the visits, exactly
    the URLs of the target list that
    left no CSV file, each with its reason: the message of the error
    thrown, or one of two different fixed texts for a missing container
    and for no surviving line, so that the reason tells how the visit
    failed unless an error was thrown with that very text as its message.
    The log is written when that list is not empty, and then it is the log
    of the specification: the count, and for every failure in that order a
    block of its URL line and its reason line; every failure has its block
    in the log. [textScraper.js] never writes the log. *)
Theorem failure_log_complete (w : World) (files0 : gmap jsstring jsstring)
        (fileContent : option jsstring) :
  let t := trace visit new_URL outputDir w (load_websites fileContent) in
  let st := Ennovi.main visit new_URL outputDir w files0 fileContent in
  List.map fst t = load_websites fileContent /\
  Ennovi.failedUrls st = failures t /\
  Ennovi.files st =
    match failures t with
    | [] => produced files0 t
    | _ :: _ =>
        writeFileSync (Ennovi.logFilePath outputDir)
                      (Ennovi.logContent (failures t)) (produced files0 t)
    end /\
  Ennovi.files st !! Ennovi.logFilePath outputDir =
    match failures t with
    | [] => files0 !! Ennovi.logFilePath outputDir
    | _ :: _ => Some (Ennovi.logContent (failures t))
    end /\
  reason_of MissingContainer <> reason_of NoSurvivingLines /\
  snd (TextScraper.main visit_text new_URL outputDir w files0 fileContent)
    !! Ennovi.logFilePath outputDir
  = files0 !! Ennovi.logFilePath outputDir /\
  Ennovi.files st = files_of_run outputDir files0 t /\
  (forall item fs,
      Ennovi.logContent (item :: fs) = log_by_spec (item :: fs)) /\
  List.Forall (fun item => contains (log_block item)
                                    (Ennovi.logContent (failures t)))
              (failures t) /\
  List.map Ennovi.url (failures t)
  = List.map fst (List.filter (fun e => negb (is_produced (snd e))) t) /\
  (forall m, reason_of (Thrown m) = Some m) /\
  (forall o1 o2 r,
      reason_of o1 = Some r -> reason_of o2 = Some r ->
      o1 = o2 \/ o1 = Thrown r \/ o2 = Thrown r).
Proof.
  cbv zeta.
  assert (Hp : forall urls w1,
             produced files0 (trace visit new_URL outputDir w1 urls)
               !! Ennovi.logFilePath outputDir
             = files0 !! Ennovi.logFilePath outputDir).
  { intros urls. generalize files0.
    induction urls as [|url urls IH]; intros fs w1; [reflexivity|].
    simpl trace. destruct (visit w1 url) as [w' r].
    unfold produced. simpl fold_left. fold (produced).
    destruct (classify new_URL outputDir url r) eqn:Ec;
      try (apply IH).
    unfold produced in IH. rewrite IH. unfold writeFileSync.
    apply lookup_insert_ne.
    unfold classify in Ec.
    destruct r as [[el|]|]; try discriminate.
    destruct (Ennovi.lines _); [discriminate|].
    destruct (new_URL url) as [urlObj|]; [|discriminate].
    injection Ec as <- _. apply ennovi_path_not_log. }
  assert (Hfiles :
            Ennovi.files
              (Ennovi.main visit new_URL outputDir w files0 fileContent)
            = match failures (trace visit new_URL outputDir w
                                    (load_websites fileContent)) with
              | [] => produced files0 (trace visit new_URL outputDir w
                                             (load_websites fileContent))
              | _ :: _ =>
                  writeFileSync
                    (Ennovi.logFilePath outputDir)
                    (Ennovi.logContent
                       (failures (trace visit new_URL outputDir w
                                        (load_websites fileContent))))
                    (produced files0 (trace visit new_URL outputDir w
                                            (load_websites fileContent)))
              end).
  { unfold Ennovi.main.
    destruct (load_websites fileContent) as [|url urls]; [reflexivity|].
    change (length (url :: urls) =? 0) with false. cbv iota.
    rewrite loop_trace. unfold Ennovi.write_log.
    cbn [Ennovi.failedUrls Ennovi.files Ennovi.world app].
    destruct (failures _); reflexivity. }
  assert (Hmain : (Ennovi.failedUrls
               (Ennovi.main visit new_URL outputDir w files0 fileContent)
             = failures (trace visit new_URL outputDir w
                               (load_websites fileContent))) /\
            snd (TextScraper.main visit_text new_URL outputDir w files0
                                  fileContent)
              !! Ennovi.logFilePath outputDir
            = files0 !! Ennovi.logFilePath outputDir).
  { unfold Ennovi.main, TextScraper.main.
    destruct (load_websites fileContent) as [|url urls] eqn:Ew.
    - split; reflexivity.
    - change (length (url :: urls) =? 0) with false. cbv iota.
      rewrite loop_trace. unfold Ennovi.write_log.
      cbn [Ennovi.failedUrls Ennovi.files Ennovi.world app].
      split; [destruct (failures _); reflexivity|].
      apply textScraper_loop_log. }
  destruct Hmain as [Hfailed Hts].
  split; [apply trace_targets|].
  split; [exact Hfailed|]. split; [exact Hfiles|].
  split; [|split; [|split; [exact Hts|]]].
  - rewrite Hfiles. destruct (failures _) eqn:Ef.
    + apply Hp.
    + unfold writeFileSync. apply lookup_insert_eq.
  - vm_compute. discriminate.
  - split; [|split; [exact logContent_by_spec|split; [apply log_lists_all|]]].
    + rewrite Hfiles. unfold files_of_run.
      destruct (failures _) as [|f fs]; [reflexivity|].
      rewrite logContent_by_spec. reflexivity.
    + split; [|split; [reflexivity|exact reason_tells]].
      generalize (trace visit new_URL outputDir w (load_websites fileContent)).
      intros t. unfold failures. induction t as [|[url o] t IH]; [reflexivity|].
      cbn [flat_map List.filter snd fst].
      destruct o; cbn [reason_of is_produced negb app List.map Ennovi.url];
        rewrite ?IH; reflexivity.
Qed.

(** C9. The file path is made from the path of the URL alone: two URLs
    with the same path, whatever their hosts, queries and fragments, get
    the same file path in either script, and so the CSV file of the
    later one takes the place of whatever the earlier one left there. *)
Theorem same_path_same_file (U1 U2 : URL) (url2 : jsstring)
        (w w2 w2' : World) (el2 : node) (text2 : jsstring) :
  pathname U1 = pathname U2 ->
  new_URL url2 = Ok U2 ->
  visit w url2 = (w2, Ok (Some el2)) ->
  Ennovi.lines (snd (Ennovi.contentText (fresh_key el2) el2)) <> [] ->
  visit_text w url2 = (w2', Ok (Some text2)) ->
  TextScraper.lines text2 <> [] ->
  TextScraper.filePath outputDir U1 = TextScraper.filePath outputDir U2 /\
  Ennovi.filePath outputDir U1 = Ennovi.filePath outputDir U2 /\
  (forall files failed,
      Ennovi.files (Ennovi.scrape visit new_URL outputDir
                                  (Ennovi.mkState w files failed) url2)
        !! Ennovi.filePath outputDir U1
      = Some (Ennovi.csvContent
                (Ennovi.lines (snd (Ennovi.contentText (fresh_key el2) el2))))) /\
  (forall files,
      snd (TextScraper.scrape visit_text new_URL outputDir (w, files) url2)
        !! TextScraper.filePath outputDir U1
      = Some (TextScraper.csvContent (TextScraper.lines text2))).
Proof.
  intros Hpath Hurl Hv Hl Hvt Hlt.
  assert (Hslug : pagePath U1 = pagePath U2).
  { unfold pagePath. rewrite Hpath. reflexivity. }
  assert (HT : TextScraper.filePath outputDir U1
               = TextScraper.filePath outputDir U2).
  { unfold TextScraper.filePath. rewrite Hslug. reflexivity. }
  assert (HE : Ennovi.filePath outputDir U1 = Ennovi.filePath outputDir U2).
  { unfold Ennovi.filePath. rewrite Hslug. reflexivity. }
  split; [exact HT|]. split; [exact HE|]. split.
  - intros files failed. unfold Ennovi.scrape, Ennovi.attempt.
    cbn [Ennovi.world]. rewrite Hv.
    destruct (Ennovi.lines (snd (Ennovi.contentText (fresh_key el2) el2))) as [|l ls] eqn:El;
      [contradiction|].
    cbn [length Nat.eqb]. rewrite Hurl. cbn [Ennovi.files].
    rewrite HE. unfold writeFileSync. apply lookup_insert_eq.
  - intros files. unfold TextScraper.scrape. rewrite Hvt.
    destruct (TextScraper.lines text2) as [|l ls] eqn:El; [contradiction|].
    cbn [length Nat.eqb]. rewrite Hurl. cbn [snd].
    rewrite HT. unfold writeFileSync. apply lookup_insert_eq.
Qed.

End RunProperties.

Lemma same_path_same_file_witness :
  TextScraper.filePath (str "scraped_text") about_a
    = TextScraper.filePath (str "scraped_text") about_b /\
  Ennovi.filePath (str "scraped_text") about_a
    = Ennovi.filePath (str "scraped_text") about_b.
Proof.
  destruct (same_path_same_file unit sample_visit sample_visit_text
              sample_new_URL (str "scraped_text") about_a about_b
              (str "https://b.example/about#top") tt tt tt sample_page
              (str "Hello"))
    as (H1 & H2 & _).
  - reflexivity.
  - reflexivity.
  - reflexivity.
  - vm_compute. discriminate.
  - reflexivity.
  - vm_compute. discriminate.
  - split; [exact H1 | exact H2].
Defined.

(* ------------------------------------------------------------------ *)
(** ** The matcher finds what the patterns match *)

Lemma re_sem_length (r : regex) (i : nat) (s : jsstring) (e : nat)
      (s' : jsstring) :
  re_sem r i s e s' -> i <= e /\ length s = (e - i) + length s'.
Proof.
  induction 1; simpl; lia.
Qed.

(** Soundness: a result of the matcher comes from a match followed by the
    continuation. *)
Lemma star_loop_sound (r : regex) (body : cont -> cont) :
  (forall k i s e, body k i s = Some e ->
                   exists j s', re_sem r i s j s' /\ k j s' = Some e) ->
  forall fuel k i s e,
    star_loop body k fuel i s = Some e ->
    exists j s', re_sem (Star r) i s j s' /\ k j s' = Some e.
Proof.
  intros Hbody fuel. induction fuel as [|fuel IH]; intros k i s e H.
  - exists i, s. split; [constructor|exact H].
  - rewrite star_loop_S in H.
    destruct (body _ i s) as [e'|] eqn:E.
    + injection H as <-. apply Hbody in E as (j & s' & Hr & Hk).
      destruct (i <? j) eqn:Hij; [|discriminate].
      apply Nat.ltb_lt in Hij.
      apply IH in Hk as (j' & s'' & Hs & Hk).
      exists j', s''. split; [|exact Hk].
      eapply sem_star_more; eassumption.
    + exists i, s. split; [constructor|exact H].
Qed.

Lemma re_match_sound (r : regex) :
  forall k i s e,
    re_match r k i s = Some e ->
    exists j s', re_sem r i s j s' /\ k j s' = Some e.
Proof.
  induction r as [|c|cl|r1 IH1 r2 IH2|r1 IH1 r2 IH2|r IH| |];
    intros k i s e H; simpl in H.
  - exists i, s. split; [constructor|exact H].
  - destruct s as [|x s]; [discriminate|].
    destruct (x =? c)%N eqn:E; [|discriminate].
    apply N.eqb_eq in E. subst x.
    exists (S i), s. split; [constructor|exact H].
  - destruct s as [|x s]; [discriminate|].
    destruct (class_mem cl x) eqn:E; [|discriminate].
    exists (S i), s. split; [constructor; exact E|exact H].
  - apply IH1 in H as (j & s' & H1 & H).
    apply IH2 in H as (j' & s'' & H2 & H).
    exists j', s''. split; [econstructor; eassumption|exact H].
  - destruct (re_match r1 k i s) as [e'|] eqn:E.
    + injection H as <-. apply IH1 in E as (j & s' & H1 & Hk).
      exists j, s'. split; [apply sem_alt_l; exact H1|exact Hk].
    + apply IH2 in H as (j & s' & H2 & Hk).
      exists j, s'. split; [apply sem_alt_r; exact H2|exact Hk].
  - revert H. apply star_loop_sound. exact IH.
  - destruct (i =? 0) eqn:E; [|discriminate]. apply Nat.eqb_eq in E. subst i.
    exists 0, s. split; [constructor|exact H].
  - destruct s; [|discriminate].
    exists i, []. split; [constructor|exact H].
Qed.

Lemma finds_found (r : regex) (i : nat) (s : jsstring) (k : cont) :
  finds r i s k -> found (re_match r k i s) = true.
Proof.
  destruct r; simpl; intros H; try exact H. apply H. lia.
Qed.

Lemma re_match_complete_finds (r : regex) (i : nat) (s : jsstring) (e : nat)
      (s' : jsstring) :
  re_sem r i s e s' ->
  forall k, found (k e s') = true -> finds r i s k.
Proof.
  induction 1 as [i s|c i s|cl x i s Hx|r1 r2 i s j s' e s'' H1 IH1 H2 IH2
                  |r1 r2 i s e s' H1 IH1|r1 r2 i s e s' H2 IH2
                  |r i s|r i s j s' e s'' H1 IH1 Hlt H2 IH2|s|i];
    intros k Hk.
  - exact Hk.
  - simpl. rewrite N.eqb_refl. exact Hk.
  - simpl. rewrite Hx. exact Hk.
  - simpl. apply finds_found, IH1. apply finds_found, IH2. exact Hk.
  - simpl. pose proof (finds_found _ _ _ _ (IH1 k Hk)) as F.
    destruct (re_match r1 k i s); [reflexivity|discriminate].
  - simpl. destruct (re_match r1 k i s); [reflexivity|].
    apply finds_found, IH2. exact Hk.
  - simpl. intros fuel _. destruct fuel as [|fuel]; [exact Hk|].
    rewrite star_loop_S. destruct (re_match r _ i s); [reflexivity|exact Hk].
  - simpl. intros fuel Hf.
    apply re_sem_length in H1 as Hlen.
    destruct fuel as [|fuel]; [lia|].
    rewrite star_loop_S.
    assert (F : found (re_match r
                         (fun j0 s0 => if i <? j0
                                       then star_loop (re_match r) k fuel j0 s0
                                       else None) i s) = true).
    { apply finds_found, IH1.
      assert (Hij : (i <? j) = true) by (apply Nat.ltb_lt; exact Hlt).
      rewrite Hij. apply (IH2 k Hk). lia. }
    destruct (re_match r _ i s); [reflexivity|discriminate].
  - exact Hk.
  - exact Hk.
Qed.

Lemma re_match_complete (r : regex) (i : nat) (s : jsstring) (e : nat)
      (s' : jsstring) (k : cont) :
  re_sem r i s e s' -> found (k e s') = true ->
  found (re_match r k i s) = true.
Proof.
  intros H Hk. apply finds_found. eapply re_match_complete_finds; eassumption.
Qed.

(** [test] without the [g] flag says whether the pattern matches somewhere
    in the string. *)
Lemma exec_from_sem (r : regex) (s : jsstring) :
  forall i,
    found (exec_from r i s) = true <->
    exists pre rest e s',
      s = pre ++ rest /\ re_sem r (i + length pre) rest e s'.
Proof.
  induction s as [|x s IH]; intros i.
  - simpl. split.
    + destruct (match_at r i []) as [e|] eqn:E; [|discriminate]. intros _.
      apply re_match_sound in E as (j & s' & Hs & _).
      exists [], [], j, s'. simpl. rewrite Nat.add_0_r. split; [reflexivity|exact Hs].
    + intros (pre & rest & e & s' & E & Hs).
      symmetry in E. apply app_eq_nil in E as [-> ->].
      simpl in Hs. rewrite Nat.add_0_r in Hs.
      pose proof (re_match_complete r i [] e s' accept Hs eq_refl) as F.
      unfold match_at. destruct (re_match r accept i []); [reflexivity|discriminate].
  - simpl. split.
    + destruct (match_at r i (x :: s)) as [e|] eqn:E.
      * intros _. apply re_match_sound in E as (j & s' & Hs & _).
        exists [], (x :: s), j, s'. simpl. rewrite Nat.add_0_r.
        split; [reflexivity|exact Hs].
      * intros H. apply IH in H as (pre & rest & e & s' & -> & Hs).
        exists (x :: pre), rest, e, s'. split; [reflexivity|].
        simpl length. replace (i + S (length pre)) with (S i + length pre) by lia.
        exact Hs.
    + intros (pre & rest & e & s' & E & Hs).
      destruct (match_at r i (x :: s)) eqn:Em; [reflexivity|].
      destruct pre as [|y pre].
      * simpl in E. subst rest. simpl in Hs. rewrite Nat.add_0_r in Hs.
        pose proof (re_match_complete r i (x :: s) e s' accept Hs eq_refl) as F.
        unfold match_at in Em. rewrite Em in F. discriminate.
      * simpl in E. injection E as <- ->.
        apply IH. exists pre, rest, e, s'. split; [reflexivity|].
        simpl length in Hs.
        replace (S i + length pre) with (i + S (length pre)) by lia. exact Hs.
Qed.

(* ------------------------------------------------------------------ *)
(** ** Reading the patterns *)

Lemma test_sem (r : regex) (s : jsstring) :
  found (exec_from r 0 s) = true <->
  exists pre rest e s', s = pre ++ rest /\ re_sem r (length pre) rest e s'.
Proof. apply (exec_from_sem r s 0). Qed.

Lemma sem_lit (w : jsstring) :
  forall i s e s',
    re_sem (lit_units w) i s e s' <-> s = w ++ s' /\ e = i + length w.
Proof.
  induction w as [|c w IH]; intros i s e s'.
  - simpl. split.
    + intros H. inversion H; subst. split; [reflexivity|lia].
    + intros [-> ->]. rewrite Nat.add_0_r. constructor.
  - destruct w as [|c' w].
    + simpl. split.
      * intros H. inversion H; subst. split; [reflexivity|lia].
      * intros [-> ->]. replace (i + 1) with (S i) by lia. constructor.
    + change (lit_units (c :: c' :: w))
        with (Cat (Chr c) (lit_units (c' :: w))).
      split.
      * intros H. inversion H as [| | |? ? ? ? j s1 ? ? H1 H2| | | | | |]; subst.
        inversion H1; subst. apply IH in H2 as [-> ->].
        split; [reflexivity|simpl; lia].
      * intros [-> ->]. apply sem_cat with (j := S i) (s' := (c' :: w) ++ s').
        -- constructor.
        -- apply IH. split; [reflexivity|simpl; lia].
Qed.

Lemma sem_star_cls (k : char_class) (i : nat) (s : jsstring) (e : nat)
      (s' : jsstring) :
  re_sem (Star (Cls k)) i s e s' <->
  exists run, forallb (class_mem k) run = true /\ s = run ++ s' /\
              e = i + length run.
Proof.
  split.
  - intros H. remember (Star (Cls k)) as r eqn:Er.
    induction H; try discriminate; injection Er as ->.
    + exists []. simpl. repeat split. lia.
    + destruct (IHre_sem2 eq_refl) as (run & Hrun & -> & ->).
      inversion H; subst.
      exists (x :: run). simpl.
      match goal with Hc : class_mem k x = true |- _ => rewrite Hc, Hrun end.
      repeat split. lia.
  - intros (run & Hrun & -> & ->). revert i.
    induction run as [|x run IH]; intros i.
    + simpl. rewrite Nat.add_0_r. constructor.
    + simpl in Hrun. apply andb_true_iff in Hrun as [Hx Hrun].
      apply sem_star_more with (j := S i) (s' := run ++ s').
      * constructor. exact Hx.
      * lia.
      * replace (i + length (x :: run)) with (S i + length run) by (simpl; lia).
        apply IH. exact Hrun.
Qed.

Lemma sem_alts (rs : list regex) (i : nat) (s : jsstring) (e : nat)
      (s' : jsstring) :
  rs <> [] ->
  (re_sem (alts rs) i s e s' <-> exists r, In r rs /\ re_sem r i s e s').
Proof.
  induction rs as [|r rs IH]; intros Hne; [contradiction|].
  destruct rs as [|r' rs].
  - simpl. split.
    + intros H. exists r. split; [left; reflexivity|exact H].
    + intros (r0 & [<-|[]] & H). exact H.
  - change (alts (r :: r' :: rs)) with (Alt r (alts (r' :: rs))). split.
    + intros H.
      inversion H as [| | | |? ? ? ? ? ? H1|? ? ? ? ? ? H2| | | |]; subst.
      * exists r. split; [left; reflexivity|exact H1].
      * apply IH in H2 as (r0 & Hin & H0); [|discriminate].
        exists r0. split; [right; exact Hin|exact H0].
    + intros (r0 & [<-|Hin] & H).
      * apply sem_alt_l. exact H.
      * apply sem_alt_r. apply IH; [discriminate|]. exists r0. split; assumption.
Qed.

(** One step of reading a match: take apart the pattern at its head. *)
Ltac sem_step :=
  match goal with
  | H : re_sem (Cat _ _) _ _ _ _ |- _ => inversion H; subst; clear H
  | H : re_sem (Alt _ _) _ _ _ _ |- _ => inversion H; subst; clear H
  | H : re_sem Bol _ _ _ _ |- _ => inversion H; subst; clear H
  | H : re_sem Eol _ _ _ _ |- _ => inversion H; subst; clear H
  | H : re_sem (Cls _) _ _ _ _ |- _ => inversion H; subst; clear H
  | H : re_sem (lit _) _ _ _ _ |- _ =>
      unfold lit in H; apply sem_lit in H; destruct H as [? ?]; subst
  | H : re_sem (Star (Cls _)) _ _ _ _ |- _ =>
      apply sem_star_cls in H; destruct H as (? & ? & ? & ?); subst
  | H : re_sem (alts _) _ _ _ _ |- _ =>
      apply sem_alts in H; [|discriminate];
      destruct H as (? & Hin & H); simpl in Hin;
      repeat (destruct Hin as [<-|Hin]); [..|destruct Hin]
  | H : 0 = length ?pre |- _ =>
      symmetry in H; apply length_zero_iff_nil in H; subst pre
  end.

(* ------------------------------------------------------------------ *)
(** ** The classifier, pattern by pattern *)

Ltac in_list := cbn [In]; repeat (first [left; reflexivity | right]).

Ltac try_words l tac :=
  lazymatch l with
  | ?w :: ?l' => first [ tac w | try_words l' tac ]
  end.

Ltac code_like_case :=
  rewrite ?app_nil_r; unfold code_like;
  first
    [ left; eexists _, _, _; split; [|split]; [|eassumption|reflexivity]; in_list
    | right; left;
      let l := eval unfold code_substrings in code_substrings in
      try_words l ltac:(fun w => exists w; split;
                                 [in_list|eexists _, _; reflexivity])
    | do 2 right; left;
      try_words (str "async" :: str "await" :: @nil jsstring)
                ltac:(fun w => exists w; eexists _, _, _; split; [|split];
                               [in_list|eassumption|reflexivity])
    | do 3 right; left; eexists; reflexivity
    | do 4 right; left; eexists _, _; split; [eassumption|reflexivity]
    | do 5 right; left; eexists _, _, _; split; [eassumption|reflexivity]
    | do 6 right; left; eexists; split; [eassumption|reflexivity]
    | do 7 right; left; reflexivity
    | do 8 right; eexists _, _; split; [eassumption|reflexivity] ].

Lemma flagged_is_code_like (line : jsstring) :
  Ennovi.isJavaScriptLine line = true -> code_like line.
Proof.
  rewrite isJavaScriptLine_existsb.
  intros H. apply existsb_exists in H as (p & Hin & H).
  apply test_sem in H as (pre & rest & e & s' & -> & H).
  unfold Ennovi.jsPatterns in Hin. cbn [In] in Hin.
  repeat (destruct Hin as [<-|Hin]); [..|destruct Hin];
    cbn [source re] in H; unfold Ennovi.ws in H; repeat sem_step.
  all: try code_like_case.
Qed.

Ltac sem_build :=
  lazymatch goal with
  | |- re_sem (Cat _ _) _ _ _ _ => eapply sem_cat; [sem_build|sem_build]
  | |- re_sem Bol _ _ _ _ => apply sem_bol
  | |- re_sem Eol _ _ _ _ => apply sem_eol
  | |- re_sem (Cls _) _ _ _ _ => apply sem_cls; eassumption
  | |- re_sem (lit _) _ _ _ _ =>
      unfold lit; apply sem_lit; split; reflexivity
  | |- re_sem (Star (Cls _)) _ _ _ _ =>
      apply sem_star_cls; eexists; split; [eassumption|split; reflexivity]
  | |- re_sem (alts ?rs) _ _ _ _ =>
      apply sem_alts; [discriminate|];
      try_words rs ltac:(fun r => exists r; split; [in_list|sem_build])
  end.

Ltac by_pattern pre :=
  apply existsb_exists;
  let l := eval unfold Ennovi.jsPatterns in Ennovi.jsPatterns in
  try_words l ltac:(fun p => exists p; split;
                      [in_list
                      |apply test_sem; exists pre; eexists _, _, _;
                       split; [reflexivity|];
                       cbn [source re]; unfold Ennovi.ws; sem_build]).

Lemma code_like_is_flagged (line : jsstring) :
  code_like line -> Ennovi.isJavaScriptLine line = true.
Proof.
  rewrite isJavaScriptLine_existsb.
  intros [D|[D|[D|[D|[D|[D|[D|[D|D]]]]]]]].
  - destruct D as (kw & c & rest & Hin & Hc & ->).
    cbn [keyword_prefixes In] in Hin.
    repeat (destruct Hin as [<-|Hin]); [..|destruct Hin];
      by_pattern (@nil N).
  - destruct D as (w & Hin & pre & post & ->).
    cbn [code_substrings In] in Hin.
    repeat (destruct Hin as [<-|Hin]); [..|destruct Hin];
      by_pattern pre.
  - destruct D as (w & c & pre & post & Hin & Hc & ->).
    cbn [In] in Hin.
    repeat (destruct Hin as [<-|Hin]); [..|destruct Hin];
      by_pattern pre.
  - destruct D as (post & ->). by_pattern (@nil N).
  - destruct D as (sp & post & Hsp & ->). by_pattern (@nil N).
  - destruct D as (pre & sp & post & Hsp & ->). by_pattern pre.
  - destruct D as (mid & Hmid & ->). by_pattern (@nil N).
  - subst line. by_pattern (@nil N).
  - destruct D as (pre & sp & Hsp & ->).
    rewrite <- (app_nil_r sp). by_pattern pre.
Qed.

(** X1. The classifier flags a line exactly when the line starts with one
    of the ten keywords and white space, holds one of sixteen substrings
    anywhere, holds async or await followed by white space, starts with a
    dollar sign and an opening parenthesis, starts with function, white
    space and an opening parenthesis, holds an arrow, white space and an
    opening brace, runs from an opening to a closing brace on one line, is
    a closing brace, or ends in a semicolon and white space. *)
Theorem classifier_characterised (line : jsstring) :
  Ennovi.isJavaScriptLine line = true <-> code_like line.
Proof.
  split; [apply flagged_is_code_like|apply code_like_is_flagged].
Qed.

Lemma in_middle {A} (c : A) (pre w post : list A) :
  In c w -> In c (pre ++ w ++ post).
Proof. intros H. apply in_or_app. right. apply in_or_app. left. exact H. Qed.

Lemma plain_unit_in (line : jsstring) (c : N) :
  forallb plain_unit line = true -> In c line -> plain_unit c = true.
Proof. intros H Hin. rewrite forallb_forall in H. apply H. exact Hin. Qed.

(** X2. A line without full stop, parenthesis, semicolon and brace is kept
    unless it starts with a keyword and white space or holds jQuery, or
    async or await followed by white space. *)
Theorem plain_prose_is_kept (line : jsstring) :
  forallb plain_unit line = true ->
  (forall kw c rest, In kw keyword_prefixes -> is_space c = true ->
                     line <> kw ++ c :: rest) ->
  ~ contains (str "jQuery") line ->
  (forall w c pre post, In w [str "async"; str "await"] -> is_space c = true ->
                        line <> pre ++ w ++ c :: post) ->
  Ennovi.isJavaScriptLine line = false.
Proof.
  intros Hplain Hkw Hjq Has.
  destruct (Ennovi.isJavaScriptLine line) eqn:E; [|reflexivity].
  exfalso. apply flagged_is_code_like in E.
  assert (Hno : forall c, plain_unit c = false -> ~ In c line).
  { intros c Hc Hin. rewrite (plain_unit_in line c Hplain Hin) in Hc.
    discriminate. }
  destruct E as [D|[D|[D|[D|[D|[D|[D|[D|D]]]]]]]].
  - destruct D as (kw & c & rest & Hin & Hc & E). exact (Hkw _ _ _ Hin Hc E).
  - destruct D as (w & Hin & pre & post & E).
    cbn [code_substrings In] in Hin.
    destruct Hin as [<-|Hin]; [apply Hjq; exists pre, post; exact E|].
    assert (H46 : In 46%N w \/ In 40%N w).
    { repeat (destruct Hin as [<-|Hin]); [..|destruct Hin];
        vm_compute; tauto. }
    destruct H46 as [H|H].
    + apply (Hno 46%N eq_refl). rewrite E. apply in_middle. exact H.
    + apply (Hno 40%N eq_refl). rewrite E. apply in_middle. exact H.
  - destruct D as (w & c & pre & post & Hin & Hc & E). exact (Has _ _ _ _ Hin Hc E).
  - destruct D as (post & E). apply (Hno 40%N eq_refl). rewrite E.
    vm_compute. tauto.
  - destruct D as (sp & post & _ & E). apply (Hno 40%N eq_refl). rewrite E.
    rewrite !in_app_iff. right. right. left. left. reflexivity.
  - destruct D as (pre & sp & post & _ & E). apply (Hno 123%N eq_refl).
    rewrite E, !in_app_iff. right. right. right. left. left. reflexivity.
  - destruct D as (mid & _ & E). apply (Hno 123%N eq_refl). rewrite E.
    left. reflexivity.
  - apply (Hno 125%N eq_refl). rewrite D. left. reflexivity.
  - destruct D as (pre & sp & _ & E). apply (Hno 59%N eq_refl).
    rewrite E, !in_app_iff. right. left. left. reflexivity.
Qed.

Lemma plain_prose_is_kept_witness :
  Ennovi.isJavaScriptLine (str "Contact us") = false.
Proof.
  apply plain_prose_is_kept.
  - vm_compute. reflexivity.
  - intros kw c rest Hin _ E. cbn [keyword_prefixes In] in Hin.
    repeat (destruct Hin as [<-|Hin]); [..|destruct Hin];
      vm_compute in E; discriminate.
  - intros (pre & post & E).
    repeat (destruct pre as [|? pre]; [vm_compute in E; discriminate|];
            injection E as <- E).
    destruct pre; discriminate.
  - intros w c pre post Hin _ E. cbn [In] in Hin.
    repeat (destruct Hin as [<-|Hin]); [..|destruct Hin];
      repeat (destruct pre as [|? pre]; [vm_compute in E; discriminate|];
              injection E as <- E);
      destruct pre; discriminate.
Defined.

(* ------------------------------------------------------------------ *)
(** ** Splitting into lines *)

Lemma match_newline (q : nat) (c : N) (rest : jsstring) :
  match_at newline q (c :: rest) =
    if (c =? 10)%N then Some (S q)
    else if (c =? 13)%N then
      match rest with
      | d :: _ => if (d =? 10)%N then Some (S (S q)) else None
      | [] => None
      end
    else None.
Proof.
  unfold match_at, newline, Opt. simpl.
  destruct (c =? 13)%N eqn:E13.
  - apply N.eqb_eq in E13. subst c. simpl.
    destruct rest as [|d rest]; [reflexivity|].
    destruct (d =? 10)%N; reflexivity.
  - destruct (c =? 10)%N; reflexivity.
Qed.

Lemma split_loop_newline (fuel : nat) :
  forall q rest piece,
    length rest < fuel ->
    split_loop newline fuel q rest piece = cut_lines rest piece.
Proof.
  induction fuel as [|fuel IH]; intros q rest piece Hf; [lia|].
  destruct rest as [|c rest]; [reflexivity|].
  simpl in Hf. cbn [split_loop cut_lines]. rewrite match_newline.
  destruct (c =? 10)%N.
  - assert (E : (S q =? q) = false) by (apply Nat.eqb_neq; lia).
    rewrite E. cbn [andb]. replace (S q - q) with 1 by lia.
    change (skipn 1 (c :: rest)) with rest. rewrite IH by lia. reflexivity.
  - destruct (c =? 13)%N.
    + destruct rest as [|d rest]; [apply IH; simpl in *; lia|].
      destruct (d =? 10)%N.
      * assert (E : (S (S q) =? q) = false) by (apply Nat.eqb_neq; lia).
        rewrite E. cbn [andb]. replace (S (S q) - q) with 2 by lia.
        change (skipn 2 (c :: d :: rest)) with rest.
        rewrite IH by (simpl in Hf; lia). reflexivity.
      * apply IH. simpl in *. lia.
    + apply IH. lia.
Qed.

Lemma split_newline (s : jsstring) : split s newline = cut_lines s [].
Proof.
  destruct s as [|c s]; [reflexivity|].
  unfold split. apply split_loop_newline. simpl. lia.
Qed.

(** Induction on a text two units at a time. *)
Lemma cut_lines_ind (P : jsstring -> Prop) :
  (forall s, (forall s', length s' < length s -> P s') -> P s) ->
  forall s, P s.
Proof.
  intros H s. remember (length s) as n eqn:En. revert s En.
  induction n as [n IH] using lt_wf_ind. intros s ->.
  apply H. intros s' Hlt. exact (IH _ Hlt s' eq_refl).
Qed.

Lemma cut_lines_no_feed (s : jsstring) :
  forall piece, ~ In 10%N piece ->
                List.Forall (fun l => ~ In 10%N l) (cut_lines s piece).
Proof.
  induction s as [s IH] using cut_lines_ind. intros piece Hp.
  destruct s as [|c s]; [repeat constructor; exact Hp|].
  cbn [cut_lines].
  assert (Hpc : (c =? 10)%N = false -> ~ In 10%N (piece ++ [c])).
  { intros Hc Hin. apply in_app_or in Hin as [Hin|[->|[]]]; [exact (Hp Hin)|].
    rewrite N.eqb_refl in Hc. discriminate. }
  destruct (c =? 10)%N eqn:E10.
  - constructor; [exact Hp|]. apply IH; [simpl; lia|intros []].
  - destruct (c =? 13)%N.
    + destruct s as [|d s]; [apply IH; [simpl; lia|auto]|].
      destruct (d =? 10)%N.
      * constructor; [exact Hp|]. apply IH; [simpl; lia|intros []].
      * apply IH; [simpl; lia|auto].
    + apply IH; [simpl; lia|auto].
Qed.

Lemma cut_lines_count (s : jsstring) :
  forall piece, length (cut_lines s piece) = S (line_feeds s).
Proof.
  unfold line_feeds.
  induction s as [s IH] using cut_lines_ind. intros piece.
  destruct s as [|c s]; [reflexivity|].
  cbn [cut_lines List.filter].
  destruct (c =? 10)%N eqn:E10.
  - simpl. rewrite IH by (simpl; lia). reflexivity.
  - destruct (c =? 13)%N.
    + destruct s as [|d s]; [apply IH; simpl; lia|].
      destruct (d =? 10)%N eqn:Ed.
      * cbn [List.filter]. rewrite Ed. simpl. rewrite IH by (simpl; lia).
        reflexivity.
      * apply IH. simpl. lia.
    + apply IH. simpl. lia.
Qed.

Lemma split_at_line_feeds_aux (s : jsstring) :
  split s newline = cut_lines s [] /\
  List.Forall (fun l => ~ In 10%N l) (split s newline).
Proof.
  rewrite split_newline. split; [reflexivity|].
  apply cut_lines_no_feed. intros [].
Qed.

(** X3. Splitting a text at [/\r?\n/] cuts it at every line feed, a carriage
    return directly before the line feed going with it: no line holds a
    line feed, and there is one line more than there are line feeds (so
    the empty text gives one empty line). *)
Theorem split_at_line_feeds (s : jsstring) :
  split s newline = cut_lines s [] /\
  List.Forall (fun l => ~ In 10%N l) (split s newline) /\
  length (split s newline) = S (line_feeds s).
Proof.
  rewrite split_newline. split; [reflexivity|]. split.
  - apply cut_lines_no_feed. intros [].
  - apply cut_lines_count.
Qed.

(* ------------------------------------------------------------------ *)
(** ** Lines put together and cut again *)

Lemma cut_lines_one (l : jsstring) :
  forall piece, ~ In 10%N l -> cut_lines l piece = [piece ++ l].
Proof.
  induction l as [|c l IH]; intros piece Hl.
  - simpl. rewrite app_nil_r. reflexivity.
  - assert (Hc : (c =? 10)%N = false).
    { apply N.eqb_neq. intros ->. apply Hl. left. reflexivity. }
    assert (Hl' : ~ In 10%N l) by (intros H; apply Hl; right; exact H).
    cbn [cut_lines]. rewrite Hc.
    assert (E : cut_lines l (piece ++ [c]) = [piece ++ c :: l]).
    { rewrite IH by exact Hl'. rewrite <- app_assoc. reflexivity. }
    destruct (c =? 13)%N; [|exact E].
    destruct l as [|d l]; [exact E|].
    assert (Hd : (d =? 10)%N = false).
    { apply N.eqb_neq. intros ->. apply Hl'. left. reflexivity. }
    rewrite Hd. exact E.
Qed.

(** A line that holds no line feed and does not end in a carriage return
    is given back when what follows it is a line feed. *)
Lemma cut_lines_first (l rest : jsstring) :
  forall piece,
    ~ In 10%N l -> (forall pre, l <> pre ++ [13%N]) ->
    cut_lines (l ++ 10%N :: rest) piece = (piece ++ l) :: cut_lines rest [].
Proof.
  induction l as [|c l IH]; intros piece Hl Hend.
  - simpl. rewrite app_nil_r. reflexivity.
  - assert (Hc : (c =? 10)%N = false).
    { apply N.eqb_neq. intros ->. apply Hl. left. reflexivity. }
    assert (Hl' : ~ In 10%N l) by (intros H; apply Hl; right; exact H).
    assert (Hend' : forall pre, l <> pre ++ [13%N]).
    { intros pre E. apply (Hend (c :: pre)). rewrite E. reflexivity. }
    cbn [app cut_lines]. rewrite Hc.
    assert (E : cut_lines (l ++ 10%N :: rest) (piece ++ [c])
                = (piece ++ c :: l) :: cut_lines rest []).
    { rewrite IH by assumption. rewrite <- app_assoc. reflexivity. }
    destruct (c =? 13)%N eqn:E13; [|exact E].
    destruct l as [|d l].
    + exfalso. apply N.eqb_eq in E13. subst c. apply (Hend []). reflexivity.
    + assert (Hd : (d =? 10)%N = false).
      { apply N.eqb_neq. intros ->. apply Hl'. left. reflexivity. }
      cbn [app] in *. rewrite Hd. exact E.
Qed.

Lemma cut_lines_join (ls : list jsstring) :
  ls <> [] ->
  List.Forall (fun l => ~ In 10%N l /\ forall pre, l <> pre ++ [13%N]) ls ->
  cut_lines (join [10%N] ls) [] = ls.
Proof.
  induction ls as [|l ls IH]; intros Hne H; [contradiction|].
  inversion H as [|? ? [Hl Hend] Hls]; subst.
  destruct ls as [|l' ls].
  - simpl. apply cut_lines_one. exact Hl.
  - change (join [10%N] (l :: l' :: ls))
      with (l ++ 10%N :: join [10%N] (l' :: ls)).
    rewrite cut_lines_first by assumption.
    rewrite IH by (discriminate || assumption). reflexivity.
Qed.

Lemma in_drop_while (p : N -> bool) (c : N) (s : jsstring) :
  In c (drop_while p s) -> In c s.
Proof.
  induction s as [|x s IH]; simpl; [auto|].
  destruct (p x); [intros H; right; apply IH; exact H|auto].
Qed.

Lemma in_trim (c : N) (s : jsstring) : In c (trim s) -> In c s.
Proof.
  unfold trim. intros H. apply in_rev in H. apply in_drop_while in H.
  apply in_rev in H. apply in_drop_while in H. exact H.
Qed.

(** A trimmed string does not end in white space. *)
Lemma trimmed_end (l pre : jsstring) (c : N) :
  trim l = l -> is_space c = true -> l <> pre ++ [c].
Proof.
  intros Ht Hc E. unfold trim in Ht.
  assert (Hr : drop_while is_space (rev l) = rev l).
  { rewrite <- Ht at 1. rewrite rev_involutive, drop_while_idem.
    rewrite <- (rev_involutive (drop_while _ (rev _))), Ht. reflexivity. }
  rewrite E, rev_app_distr in Hr. simpl in Hr. rewrite Hc in Hr.
  pose proof (drop_while_length is_space (rev pre)) as Hlen.
  rewrite Hr in Hlen. simpl in Hlen. lia.
Qed.

Lemma filter_all {A} (p : A -> bool) (l : list A) :
  List.Forall (fun x => p x = true) l -> List.filter p l = l.
Proof.
  induction 1 as [|x l Hx _ IH]; simpl; [reflexivity|].
  rewrite Hx, IH. reflexivity.
Qed.

Lemma map_fixed {A} (f : A -> A) (l : list A) :
  List.Forall (fun x => f x = x) l -> List.map f l = l.
Proof.
  induction 1 as [|x l Hx _ IH]; simpl; [reflexivity|].
  rewrite Hx, IH. reflexivity.
Qed.

(** What the lines kept by either script are like. *)
Lemma kept_lines_shape (text l : jsstring) :
  In l (List.filter (fun line => 0 <? length line)
                    (List.map trim (split text newline))) ->
  trim l = l /\ (0 <? length l) = true /\ ~ In 10%N l /\
  forall pre, l <> pre ++ [13%N].
Proof.
  intros H. apply filter_In in H as [Hin Hlen].
  apply in_map_iff in Hin as (raw & <- & Hraw).
  split; [apply trim_idem|]. split; [exact Hlen|]. split.
  - intros H10. apply in_trim in H10.
    destruct (split_at_line_feeds_aux text) as [_ Hno].
    rewrite List.Forall_forall in Hno. exact (Hno raw Hraw H10).
  - intros pre. apply trimmed_end; [apply trim_idem|reflexivity].
Qed.

Lemma renormalise (ls : list jsstring) :
  List.Forall (fun l => trim l = l /\ (0 <? length l) = true /\ ~ In 10%N l /\
                        forall pre, l <> pre ++ [13%N]) ls ->
  List.filter (fun line => 0 <? length line)
              (List.map trim (split (join [10%N] ls) newline)) = ls.
Proof.
  intros H. destruct ls as [|l ls]; [reflexivity|].
  rewrite split_newline, cut_lines_join; [|discriminate|].
  - rewrite map_fixed, filter_all; [reflexivity| |].
    + eapply List.Forall_impl; [|exact H]. intros x (_ & Hx & _). exact Hx.
    + eapply List.Forall_impl; [|exact H]. intros x (Hx & _). exact Hx.
  - eapply List.Forall_impl; [|exact H]. intros x (_ & _ & H1 & H2).
    split; assumption.
Qed.

(** X4. The extraction result is a fixed point of the normalisation:
    putting its lines together with line feeds and running the lines step
    of the same script again gives the same lines. *)
Theorem lines_fixed_point (text : jsstring) :
  TextScraper.lines (join [10%N] (TextScraper.lines text))
  = TextScraper.lines text /\
  Ennovi.lines (join [10%N] (Ennovi.lines text)) = Ennovi.lines text.
Proof.
  split.
  - unfold TextScraper.lines at 1. apply renormalise.
    apply List.Forall_forall. intros l Hl. apply (kept_lines_shape text l Hl).
  - unfold Ennovi.lines at 1. rewrite renormalise.
    + apply filter_all. apply List.Forall_forall. intros l Hl.
      unfold Ennovi.lines in Hl. apply filter_In in Hl as [_ Hl]. exact Hl.
    + apply List.Forall_forall. intros l Hl.
      unfold Ennovi.lines in Hl. apply filter_In in Hl as [Hl _].
      apply (kept_lines_shape text l Hl).
Qed.

(* ------------------------------------------------------------------ *)
(** ** Reading the CSV contents back *)

Lemma double_quotes_injective (a : jsstring) :
  forall b, double_quotes a = double_quotes b -> a = b.
Proof.
  unfold double_quotes.
  induction a as [|x a IH]; intros [|y b] H; simpl in H.
  - reflexivity.
  - destruct (y =? dquote)%N; discriminate.
  - destruct (x =? dquote)%N; discriminate.
  - destruct (x =? dquote)%N eqn:Ex, (y =? dquote)%N eqn:Ey; simpl in H.
    + apply N.eqb_eq in Ex, Ey. subst. injection H as H. f_equal. apply IH, H.
    + injection H as <- _. apply N.eqb_eq in Ex. subst x.
      rewrite N.eqb_refl in Ey. discriminate.
    + injection H as -> _. apply N.eqb_eq in Ey. subst y.
      rewrite N.eqb_refl in Ex. discriminate.
    + injection H as -> H. f_equal. apply IH, H.
Qed.

Lemma csvField_injective (a b : jsstring) : csvField a = csvField b -> a = b.
Proof.
  rewrite !csvField_eq. intros H. simpl in H. injection H as H.
  apply app_inj_tail in H as [H _]. apply double_quotes_injective, H.
Qed.

Lemma csvField_no_feed (text : jsstring) :
  ~ In 10%N text -> ~ In 10%N (csvField text).
Proof.
  intros Ht H. rewrite csvField_eq in H.
  apply in_app_or in H as [[H|[]]|H]; [discriminate|].
  apply in_app_or in H as [H|[H|[]]]; [|discriminate].
  apply Ht. unfold double_quotes in H.
  apply in_flat_map in H as (c & Hc & H).
  destruct (c =? dquote)%N.
  - destruct H as [H|[H|[]]]; discriminate.
  - destruct H as [<-|[]]. exact Hc.
Qed.

Lemma ends_in_quote (x pre : jsstring) : x ++ [dquote] <> pre ++ [13%N].
Proof. intros H. apply app_inj_tail in H as [_ H]. discriminate. Qed.

Lemma csv_rows_shape (first : jsstring) (ls : list jsstring) :
  ~ In 10%N first -> (forall pre, first <> pre ++ [13%N]) ->
  ls <> [] -> List.Forall (fun l => ~ In 10%N l) ls ->
  split (first ++ [10%N] ++ join [10%N] (List.map csvField ls)) newline
  = first :: List.map csvField ls.
Proof.
  intros Hf Hfe Hne Hls. rewrite split_newline.
  destruct ls as [|l ls]; [contradiction|].
  change (first ++ [10%N] ++ join [10%N] (List.map csvField (l :: ls)))
    with (join [10%N] (first :: List.map csvField (l :: ls))).
  apply cut_lines_join; [discriminate|].
  constructor; [split; assumption|].
  apply List.Forall_forall. intros f Hin.
  apply in_map_iff in Hin as (t & <- & Ht).
  rewrite List.Forall_forall in Hls. split.
  - apply csvField_no_feed, Hls, Ht.
  - intros pre. rewrite csvField_eq, app_assoc. apply ends_in_quote.
Qed.

(** X5. Cutting the CSV contents of a non-empty list of lines without line
    feeds at the line ends gives back the header row and one field per
    line: no record runs over two lines of the file. In the second script
    the first line is the header row after the byte order mark. *)
Theorem csv_read_back (ls : list jsstring) :
  ls <> [] -> List.Forall (fun l => ~ In 10%N l) ls ->
  split (TextScraper.csvContent ls) newline = csvHeader :: List.map csvField ls /\
  split (Ennovi.csvContent ls) newline
  = (Ennovi.BOM ++ csvHeader) :: List.map csvField ls.
Proof.
  intros Hne Hls. split.
  - apply csv_rows_shape; try assumption.
    + vm_compute. intuition discriminate.
    + intros pre. apply (ends_in_quote ([dquote] ++ str "Extracted Text")).
  - unfold Ennovi.csvContent, csvRows. rewrite app_assoc.
    apply csv_rows_shape; try assumption.
    + vm_compute. intuition discriminate.
    + intros pre. unfold csvHeader. rewrite !app_assoc.
      apply ends_in_quote.
Qed.

Lemma csv_read_back_witness :
  split (TextScraper.csvContent [str "Welcome"; str "Contact us"]) newline
  = csvHeader :: List.map csvField [str "Welcome"; str "Contact us"].
Proof.
  apply (csv_read_back [str "Welcome"; str "Contact us"]).
  - discriminate.
  - repeat constructor; vm_compute; intuition discriminate.
Defined.

Lemma map_csvField_injective (a : list jsstring) :
  forall b, List.map csvField a = List.map csvField b -> a = b.
Proof.
  induction a as [|x a IH]; intros [|y b] H; try discriminate; [reflexivity|].
  cbn [List.map] in H.
  pose proof (f_equal (hd []) H) as Hx. pose proof (f_equal (@tl _) H) as Ht.
  cbn [hd tl] in Hx, Ht.
  f_equal; [apply csvField_injective, Hx|apply IH, Ht].
Qed.

(** X6. The CSV contents lose nothing: two non-empty lists of lines without
    line feeds that give the same contents, in either script, are the same
    list. *)
Theorem csv_lossless (ls1 ls2 : list jsstring) :
  ls1 <> [] -> ls2 <> [] ->
  List.Forall (fun l => ~ In 10%N l) ls1 ->
  List.Forall (fun l => ~ In 10%N l) ls2 ->
  (TextScraper.csvContent ls1 = TextScraper.csvContent ls2 -> ls1 = ls2) /\
  (Ennovi.csvContent ls1 = Ennovi.csvContent ls2 -> ls1 = ls2).
Proof.
  intros Hn1 Hn2 H1 H2.
  assert (Hr1 : split (TextScraper.csvContent ls1) newline
                = csvHeader :: List.map csvField ls1)
    by (apply csv_rows_shape; try assumption;
        [vm_compute; intuition discriminate
        |intros pre; apply (ends_in_quote ([dquote] ++ str "Extracted Text"))]).
  assert (Hr2 : split (TextScraper.csvContent ls2) newline
                = csvHeader :: List.map csvField ls2)
    by (apply csv_rows_shape; try assumption;
        [vm_compute; intuition discriminate
        |intros pre; apply (ends_in_quote ([dquote] ++ str "Extracted Text"))]).
  assert (HT : TextScraper.csvContent ls1 = TextScraper.csvContent ls2 ->
               ls1 = ls2).
  { intros E. rewrite E, Hr2 in Hr1.
    pose proof (f_equal (@tl _) Hr1) as Ht. cbn [tl] in Ht.
    symmetry. apply map_csvField_injective, Ht. }
  split; [exact HT|].
  intros E. apply HT. unfold Ennovi.csvContent in E.
  apply app_inv_head in E. exact E.
Qed.

Lemma csv_lossless_witness : [str "a"] = [str "a"].
Proof.
  refine (proj1 (csv_lossless [str "a"] [str "a"] _ _ _ _) eq_refl);
    try discriminate;
    repeat constructor; vm_compute; intuition discriminate.
Defined.

Lemma header_row_first (mark rest : jsstring) :
  ~ In 10%N mark ->
  split (mark ++ csvHeader ++ [10%N] ++ rest) newline
  = (mark ++ csvHeader) :: split rest newline.
Proof.
  intros Hmark. rewrite !split_newline.
  change (mark ++ csvHeader ++ [10%N] ++ rest)
    with (mark ++ csvHeader ++ 10%N :: rest).
  rewrite app_assoc. apply (cut_lines_first (mark ++ csvHeader) rest []).
  - intros H. apply in_app_or in H as [H|H]; [exact (Hmark H)|].
    vm_compute in H. intuition discriminate.
  - intros pre. unfold csvHeader. rewrite !app_assoc. apply ends_in_quote.
Qed.

(** C6. The contents begin with the header row and have one field per
    line of the extraction result after it, each line between double quotes
    with every double quote of its own doubled, in both scripts; the second
    script puts the byte order mark U+FEFF before the header row, as the
    specification says of one variant. Cut at the line ends, the first row
    of the file is the header row, after the mark in the second script, and
    what follows are the rows of the fields. The line of the specification
    is serialized as the specification has it. *)
Theorem csv_serialization (lines : list jsstring) (text : jsstring) :
  TextScraper.csvContent lines =
    csvHeader ++ [10%N] ++ join [10%N] (List.map csvField lines) /\
  Ennovi.csvContent lines =
    [65279%N] ++ csvHeader ++ [10%N] ++ join [10%N] (List.map csvField lines) /\
  csvHeader = [dquote] ++ str "Extracted Text" ++ [dquote] /\
  csvField text = [dquote] ++ double_quotes text ++ [dquote] /\
  csvField (str "She said " ++ [dquote] ++ str "hi" ++ [dquote]) =
    [dquote] ++ str "She said " ++ [dquote; dquote] ++ str "hi"
    ++ [dquote; dquote] ++ [dquote] /\
  split (TextScraper.csvContent lines) newline
  = csvHeader :: split (join [10%N] (List.map csvField lines)) newline /\
  split (Ennovi.csvContent lines) newline
  = ([65279%N] ++ csvHeader)
      :: split (join [10%N] (List.map csvField lines)) newline.
Proof.
  split; [reflexivity|]. split; [reflexivity|]. split; [reflexivity|].
  split; [apply csvField_eq|]. split; [vm_compute; reflexivity|]. split.
  - apply (header_row_first [] (join [10%N] (List.map csvField lines))).
    intros [].
  - apply (header_row_first [65279%N] (join [10%N] (List.map csvField lines))).
    intros [H|[]]. discriminate.
Qed.

(* ------------------------------------------------------------------ *)
(** ** The target list *)

(** X7. Every entry of the target list is the trimmed form of a line of
    [websites.txt]: trimming it again changes nothing, it is not empty,
    holds no line feed and does not start with the comment sign. An
    unreadable file gives the empty list. *)
Theorem websites_entries (fileContent : option jsstring) :
  List.Forall
    (fun url =>
       trim url = url /\ url <> [] /\ startsWith url (str "#") = false /\
       ~ In 10%N url /\
       exists text raw, fileContent = Some text /\
                        In raw (split text newline) /\ url = trim raw)
    (load_websites fileContent) /\
  load_websites None = [].
Proof.
  split; [|reflexivity].
  apply List.Forall_forall. intros url Hin.
  destruct fileContent as [text|]; [|destruct Hin].
  unfold load_websites in Hin. apply filter_In in Hin as [Hin Hp].
  apply andb_true_iff in Hp as [Hlen Hc]. apply negb_true_iff in Hc.
  apply in_map_iff in Hin as (raw & <- & Hraw).
  split; [apply trim_idem|]. split; [apply length_pos_nonempty, Hlen|].
  split; [exact Hc|]. split.
  - intros H10. apply in_trim in H10.
    destruct (split_at_line_feeds_aux text) as [_ Hno].
    rewrite List.Forall_forall in Hno. exact (Hno raw Hraw H10).
  - exists text, raw. repeat split. exact Hraw.
Qed.

Lemma filter_none {A} (p : A -> bool) (l : list A) :
  List.Forall (fun x => p x = false) l -> List.filter p l = [].
Proof.
  induction 1 as [|x l Hx _ IH]; simpl; [reflexivity|]. rewrite Hx. exact IH.
Qed.

Section NoTargets.

Variable World : Type.
Variable visit : World -> jsstring -> World * result (option node).
Variable visit_text : World -> jsstring -> World * result (option jsstring).
Variable new_URL : jsstring -> result URL.
Variable outputDir : jsstring.

(** X8. When [websites.txt] cannot be read, or holds only blank lines and
    comment lines, either script visits nothing and writes nothing: the
    browser and the files are as before, and the second script records no
    failure and writes no log. *)
Theorem no_targets_no_work (w : World) (files0 : gmap jsstring jsstring)
        (fileContent : option jsstring) :
  match fileContent with
  | None => True
  | Some text =>
      List.Forall (fun raw => trim raw = [] \/
                              startsWith (trim raw) (str "#") = true)
                  (split text newline)
  end ->
  load_websites fileContent = [] /\
  TextScraper.main visit_text new_URL outputDir w files0 fileContent
  = (w, files0) /\
  Ennovi.main visit new_URL outputDir w files0 fileContent
  = Ennovi.mkState w files0 [].
Proof.
  intros H.
  assert (E : load_websites fileContent = []).
  { destruct fileContent as [text|]; [|reflexivity].
    unfold load_websites. apply filter_none.
    apply List.Forall_forall. intros l Hl.
    apply in_map_iff in Hl as (raw & <- & Hraw).
    rewrite List.Forall_forall in H. destruct (H raw Hraw) as [Hb|Hc].
    - rewrite Hb. reflexivity.
    - rewrite Hc. apply andb_false_r. }
  split; [exact E|].
  unfold TextScraper.main, Ennovi.main. rewrite E. split; reflexivity.
Qed.

End NoTargets.

Lemma no_targets_no_work_witness :
  load_websites (Some (str "# staging sites" ++ [13%N; 10%N] ++ str "   ")) = [].
Proof.
  refine (proj1 (no_targets_no_work unit sample_visit sample_visit_text
                   sample_new_URL (str "scraped_text") tt ∅
                   (Some (str "# staging sites" ++ [13%N; 10%N] ++ str "   "))
                   _)).
  vm_compute.
  constructor; [right; reflexivity|constructor; [left; reflexivity|constructor]].
Defined.

(* ------------------------------------------------------------------ *)
(** ** File names *)

Lemma pagePath_nonempty (urlObj : URL) : pagePath urlObj <> [].
Proof.
  rewrite pagePath_eq. destruct (strip_underscores _); discriminate.
Qed.

Lemma pagePath_no_slash (urlObj : URL) :
  forallb (fun c => negb (c =? 47)%N) (pagePath urlObj) = true.
Proof.
  rewrite pagePath_eq.
  assert (Hs : forallb (fun c => negb (c =? 47)%N)
                 (strip_underscores (slashes_to_underscores (pathname urlObj)))
               = true).
  { apply forallb_strip_underscores. unfold slashes_to_underscores.
    induction (pathname urlObj) as [|c s IH]; simpl; [reflexivity|].
    rewrite IH, andb_true_r. destruct (c =? 47)%N eqn:E; [reflexivity|].
    rewrite E. reflexivity. }
  destruct (strip_underscores _); [reflexivity|exact Hs].
Qed.

(** X9. The file name of a CSV file is never without a stem and holds no
    slash, in either script: the file lies in the output directory itself,
    whatever the path of the URL is. *)
Theorem csv_file_in_output_directory (outputDir : jsstring) (urlObj : URL) :
  pagePath urlObj <> [] /\
  (exists name,
      TextScraper.filePath outputDir urlObj = outputDir ++ str "/" ++ name /\
      forallb (fun c => negb (c =? 47)%N) name = true) /\
  (exists name,
      Ennovi.filePath outputDir urlObj = outputDir ++ str "/" ++ name /\
      forallb (fun c => negb (c =? 47)%N) name = true).
Proof.
  split; [apply pagePath_nonempty|].
  split; eexists; (split; [reflexivity|]);
    rewrite !forallb_app, pagePath_no_slash; reflexivity.
Qed.

Lemma slashes_to_underscores_idem (s : jsstring) :
  slashes_to_underscores (slashes_to_underscores s) = slashes_to_underscores s.
Proof.
  unfold slashes_to_underscores. rewrite List.map_map.
  apply map_ext. intros c. destruct (c =? 47)%N eqn:E; [reflexivity|].
  rewrite E. reflexivity.
Qed.

Lemma strip_end_snoc (s : jsstring) :
  strip_end is_underscore (s ++ [95%N]) = strip_end is_underscore s.
Proof. unfold strip_end. rewrite rev_app_distr. reflexivity. Qed.

Lemma strip_underscores_wrapped (s : jsstring) :
  strip_underscores ([95%N] ++ s ++ [95%N]) = strip_underscores s.
Proof.
  unfold strip_underscores. cbn [app drop_while is_underscore N.eqb Pos.eqb].
  rewrite drop_while_app.
  destruct (forallb is_underscore s) eqn:E.
  - rewrite (drop_while_all is_underscore s E). reflexivity.
  - apply strip_end_snoc.
Qed.

Lemma slashes_wrapped (p : jsstring) :
  slashes_to_underscores (str "/" ++ p ++ str "/")
  = [95%N] ++ slashes_to_underscores p ++ [95%N].
Proof. unfold slashes_to_underscores. rewrite !List.map_app. reflexivity. Qed.

Lemma pagePath_by_stem (u v : URL) :
  strip_underscores (slashes_to_underscores (pathname u))
  = strip_underscores (slashes_to_underscores (pathname v)) ->
  pagePath u = pagePath v.
Proof. intros H. rewrite !pagePath_eq, H. reflexivity. Qed.

(** X10. Different paths can get one file name. For every URL the path
    with each slash written as an underscore, the path between two more
    slashes and the path itself give the same stem, and the path
    [/homepage] gives the stem of the root path; so in either script the
    files of such URLs are one file. *)
Theorem file_names_collide (outputDir : jsstring) (urlObj : URL) :
  let underscored :=
    with_pathname urlObj (slashes_to_underscores (pathname urlObj)) in
  let wrapped :=
    with_pathname urlObj (str "/" ++ pathname urlObj ++ str "/") in
  pagePath underscored = pagePath urlObj /\
  pagePath wrapped = pagePath urlObj /\
  pagePath (with_pathname urlObj (str "/homepage"))
  = pagePath (with_pathname urlObj (str "/")) /\
  TextScraper.filePath outputDir underscored
  = TextScraper.filePath outputDir urlObj /\
  Ennovi.filePath outputDir wrapped = Ennovi.filePath outputDir urlObj.
Proof.
  cbv zeta.
  assert (H1 : pagePath (with_pathname urlObj
                           (slashes_to_underscores (pathname urlObj)))
               = pagePath urlObj).
  { apply pagePath_by_stem. cbn [pathname with_pathname].
    rewrite slashes_to_underscores_idem. reflexivity. }
  assert (H2 : pagePath (with_pathname urlObj
                           (str "/" ++ pathname urlObj ++ str "/"))
               = pagePath urlObj).
  { apply pagePath_by_stem. cbn [pathname with_pathname].
    rewrite slashes_wrapped. apply strip_underscores_wrapped. }
  split; [exact H1|]. split; [exact H2|]. split; [vm_compute; reflexivity|].
  unfold TextScraper.filePath, Ennovi.filePath. rewrite H1, H2.
  split; reflexivity.
Qed.

(* ------------------------------------------------------------------ *)
(** ** More on runs *)

Section MoreRuns.

Variable World : Type.
Variable visit : World -> jsstring -> World * result (option node).
Variable visit_text : World -> jsstring -> World * result (option jsstring).
Variable new_URL : jsstring -> result URL.
Variable outputDir : jsstring.

(** The second script as a whole, in terms of the trace of its visits. *)
Lemma main_trace (w : World) (files0 : gmap jsstring jsstring)
      (fileContent : option jsstring) :
  Ennovi.main visit new_URL outputDir w files0 fileContent =
    Ennovi.write_log outputDir
      (Ennovi.mkState
         (world_after visit w (load_websites fileContent))
         (produced files0
                   (trace visit new_URL outputDir w (load_websites fileContent)))
         (failures
            (trace visit new_URL outputDir w (load_websites fileContent)))).
Proof.
  unfold Ennovi.main.
  destruct (load_websites fileContent) as [|url urls]; [reflexivity|].
  change (length (url :: urls) =? 0) with false. cbv iota.
  rewrite loop_trace. reflexivity.
Qed.

Lemma failedUrls_write_log (st : Ennovi.state World) :
  Ennovi.failedUrls (Ennovi.write_log outputDir st) = Ennovi.failedUrls st.
Proof.
  unfold Ennovi.write_log. destruct (0 <? length _); reflexivity.
Qed.

Lemma trace_length (urls : list jsstring) (w : World) :
  length (trace visit new_URL outputDir w urls) = length urls.
Proof.
  rewrite <- (trace_targets World visit new_URL outputDir urls w) at 2.
  symmetry. apply length_map.
Qed.

(** X11. After a run of the second script every URL of the target list
    has ended in exactly one of two ways, in a CSV file written or in an
    entry of the failure list: the files are the files from before with
    one CSV file written for each target that produced one, in the order of
    the list, and then the log if a target failed; the failure list holds
    the other targets in the order of the list; and its length and the
    number of CSV files written add up to the number of targets. *)
Theorem one_outcome_per_target (w : World) (files0 : gmap jsstring jsstring)
        (fileContent : option jsstring) :
  let websites := load_websites fileContent in
  let t := trace visit new_URL outputDir w websites in
  let st := Ennovi.main visit new_URL outputDir w files0 fileContent in
  List.map fst t = websites /\
  Ennovi.files st = files_of_run outputDir files0 t /\
  List.map Ennovi.url (Ennovi.failedUrls st)
  = List.map fst (List.filter (fun e => negb (is_produced (snd e))) t) /\
  length (Ennovi.failedUrls st)
  + length (List.filter (fun e => is_produced (snd e)) t)
  = length websites.
Proof.
  cbv zeta. rewrite main_trace, failedUrls_write_log. cbn [Ennovi.failedUrls].
  split; [apply trace_targets|]. split.
  { unfold Ennovi.write_log, files_of_run. cbn [Ennovi.failedUrls Ennovi.files].
    destruct (failures _) as [|f fs]; [reflexivity|].
    cbn [length Nat.ltb Nat.leb Ennovi.files Ennovi.world].
    rewrite logContent_by_spec. reflexivity. }
  rewrite <- (trace_length (load_websites fileContent) w).
  generalize (trace visit new_URL outputDir w (load_websites fileContent)).
  intros t. unfold failures. induction t as [|[url o] t [IH1 IH2]].
  - split; reflexivity.
  - cbn [flat_map List.filter snd fst].
    destruct o; cbn [reason_of is_produced negb app List.map length];
      rewrite ?IH1; split; try reflexivity; simpl in *; lia.
Qed.

Lemma produced_elsewhere (p : jsstring) :
  (forall urlObj, p <> Ennovi.filePath outputDir urlObj) ->
  forall urls w files,
    produced files (trace visit new_URL outputDir w urls) !! p = files !! p.
Proof.
  intros Hp urls.
  induction urls as [|url urls IH]; intros w files; [reflexivity|].
  simpl trace. destruct (visit w url) as [w' r].
  unfold produced. cbn [fold_left snd]. fold produced.
  destruct (classify new_URL outputDir url r) eqn:Ec;
    try (apply IH).
  unfold produced in IH. rewrite IH. unfold writeFileSync.
  apply lookup_insert_ne.
  unfold classify in Ec.
  destruct r as [[el|]|]; try discriminate.
  destruct (Ennovi.lines _); [discriminate|].
  destruct (new_URL url) as [urlObj|]; [|discriminate].
  injection Ec as <- _. intros E. exact (Hp urlObj (eq_sym E)).
Qed.

Lemma textScraper_elsewhere (p : jsstring) :
  (forall urlObj, p <> TextScraper.filePath outputDir urlObj) ->
  forall urls w files,
    snd (fold_left (TextScraper.scrape visit_text new_URL outputDir) urls
                   (w, files)) !! p = files !! p.
Proof.
  intros Hp urls.
  induction urls as [|url urls IH]; intros w files; [reflexivity|].
  cbn [fold_left].
  destruct (TextScraper.scrape visit_text new_URL outputDir (w, files) url)
    as [w' files'] eqn:E.
  rewrite IH. unfold TextScraper.scrape in E.
  destruct (visit_text w url) as [w1 [[text|]|message]];
    try (injection E as _ <-; reflexivity).
  destruct (length (TextScraper.lines text) =? 0);
    [injection E as _ <-; reflexivity|].
  destruct (new_URL url) as [urlObj|message];
    injection E as _ <-; [|reflexivity].
  unfold writeFileSync. apply lookup_insert_ne.
  intros E. exact (Hp urlObj (eq_sym E)).
Qed.

(** X12. A run touches no file but its own: a path that is neither the CSV
    path of a URL nor, in the second script, the path of the log holds
    after the run what it held before. *)
Theorem other_files_untouched (w : World) (files0 : gmap jsstring jsstring)
        (fileContent : option jsstring) (p : jsstring) :
  (forall urlObj, p <> TextScraper.filePath outputDir urlObj) ->
  (forall urlObj, p <> Ennovi.filePath outputDir urlObj) ->
  p <> Ennovi.logFilePath outputDir ->
  snd (TextScraper.main visit_text new_URL outputDir w files0 fileContent) !! p
  = files0 !! p /\
  Ennovi.files (Ennovi.main visit new_URL outputDir w files0 fileContent) !! p
  = files0 !! p.
Proof.
  intros HT HE HL. split.
  - unfold TextScraper.main.
    destruct (length (load_websites fileContent) =? 0); [reflexivity|].
    apply textScraper_elsewhere. exact HT.
  - rewrite main_trace. unfold Ennovi.write_log.
    destruct (0 <? length _); cbn [Ennovi.files].
    + unfold writeFileSync. rewrite lookup_insert_ne by (intros E; exact (HL (eq_sym E))).
      apply produced_elsewhere. exact HE.
    + apply produced_elsewhere. exact HE.
Qed.

Lemma produced_keeps (p : jsstring) (t : list (jsstring * visit_outcome)) :
  forall files, is_Some (files !! p) -> is_Some (produced files t !! p).
Proof.
  induction t as [|[url o] t IH]; intros files H; [exact H|].
  unfold produced. cbn [fold_left snd]. fold produced.
  apply IH. destruct o as [message| | |path data]; try exact H.
  unfold writeFileSync. apply lookup_insert_is_Some.
  destruct (decide (path = p)) as [E|E]; [left; exact E|right; split; assumption].
Qed.

Lemma target_accounted (url : jsstring) (urls : list jsstring) :
  In url urls ->
  forall w files,
    In url (List.map Ennovi.url
                     (failures (trace visit new_URL outputDir w urls))) \/
    exists urlObj,
      new_URL url = Ok urlObj /\
      is_Some (produced files (trace visit new_URL outputDir w urls)
               !! Ennovi.filePath outputDir urlObj).
Proof.
  induction urls as [|u urls IH]; intros Hin w files; [destruct Hin|].
  simpl trace. destruct (visit w u) as [w' r].
  unfold failures, produced. cbn [flat_map fold_left snd fst].
  fold (failures (trace visit new_URL outputDir w' urls)).
  destruct Hin as [->|Hin].
  - unfold classify.
    destruct r as [[el|]|message];
      try (left; cbn [reason_of app List.map Ennovi.url]; left; reflexivity).
    destruct (Ennovi.lines _) as [|l ls];
      try (left; cbn [reason_of app List.map Ennovi.url]; left; reflexivity).
    destruct (new_URL url) as [urlObj|message];
      try (left; cbn [reason_of app List.map Ennovi.url]; left; reflexivity).
    right. exists urlObj. split; [reflexivity|].
    apply produced_keeps. unfold writeFileSync.
    rewrite lookup_insert_eq. eexists. reflexivity.
  - rewrite List.map_app, in_app_iff.
    destruct (IH Hin w'
                 (match classify new_URL outputDir u r with
                  | Produced path data => writeFileSync path data files
                  | _ => files
                  end)) as [H|H].
    + left. right. exact H.
    + right. exact H.
Qed.

(** X13. After a run of the second script every URL of the target list is
    accounted for: it is in the failure list, or its address was parsed and
    a file exists at the CSV path of that address. *)
Theorem every_target_accounted (w : World) (files0 : gmap jsstring jsstring)
        (fileContent : option jsstring) (url : jsstring) :
  In url (load_websites fileContent) ->
  let st := Ennovi.main visit new_URL outputDir w files0 fileContent in
  In url (List.map Ennovi.url (Ennovi.failedUrls st)) \/
  exists urlObj,
    new_URL url = Ok urlObj /\
    is_Some (Ennovi.files st !! Ennovi.filePath outputDir urlObj).
Proof.
  intros Hin. cbv zeta. rewrite main_trace, failedUrls_write_log.
  cbn [Ennovi.failedUrls].
  destruct (target_accounted url _ Hin w files0) as [H|(urlObj & E & H)];
    [left; exact H|].
  right. exists urlObj. split; [exact E|].
  unfold Ennovi.write_log. destruct (0 <? length _); cbn [Ennovi.files];
    [|exact H].
  unfold writeFileSync. apply lookup_insert_is_Some.
  destruct (decide (Ennovi.logFilePath outputDir
                    = Ennovi.filePath outputDir urlObj)) as [E'|E'];
    [left; exact E'|right; split; assumption].
Qed.

End MoreRuns.

Lemma every_target_accounted_witness :
  In (str "https://b.example/about")
     (load_websites (Some (str "https://b.example/about"))) /\
  (In (str "https://b.example/about")
      (List.map Ennovi.url
         (Ennovi.failedUrls
            (Ennovi.main sample_visit sample_new_URL (str "scraped_text") tt ∅
                         (Some (str "https://b.example/about"))))) \/
   exists urlObj,
     sample_new_URL (str "https://b.example/about") = Ok urlObj /\
     is_Some (Ennovi.files
                (Ennovi.main sample_visit sample_new_URL (str "scraped_text")
                             tt ∅ (Some (str "https://b.example/about")))
              !! Ennovi.filePath (str "scraped_text") urlObj)).
Proof.
  assert (H : In (str "https://b.example/about")
                 (load_websites (Some (str "https://b.example/about")))).
  { vm_compute. left. reflexivity. }
  split; [exact H|].
  exact (every_target_accounted unit sample_visit sample_new_URL
           (str "scraped_text") tt ∅ (Some (str "https://b.example/about"))
           (str "https://b.example/about") H).
Defined.

Lemma other_files_untouched_witness :
  Ennovi.files
    (Ennovi.main sample_visit sample_new_URL (str "scraped_text") tt
                 (<[str "notes.txt" := str "mine"]> ∅)
                 (Some (str "https://b.example/about#top")))
    !! str "notes.txt"
  = Some (str "mine").
Proof.
  refine (eq_trans
            (proj2 (other_files_untouched unit sample_visit sample_visit_text
                      sample_new_URL (str "scraped_text") tt
                      (<[str "notes.txt" := str "mine"]> ∅)
                      (Some (str "https://b.example/about#top"))
                      (str "notes.txt") _ _ _)) _).
  - intros u E. vm_compute in E. discriminate.
  - intros u E. vm_compute in E. discriminate.
  - intros E. vm_compute in E. discriminate.
  - apply lookup_insert_eq.
Defined.

(* ------------------------------------------------------------------ *)
(** ** What the content isolation keeps *)

(** The text kept is text of the tree, in its order. *)
Lemma kept_text_sublist (n : node) :
  kept_text n `sublist_of` descendant_text n.
Proof.
  induction n as [k d|k d|k t a cs IH] using node_induction;
    try reflexivity.
  simpl. induction IH as [|c cs Hc _ IHcs]; [reflexivity|].
  simpl. apply sublist_app; [|exact IHcs].
  destruct (removable c); [apply sublist_nil_l|exact Hc].
Qed.

(** Where nothing is to be taken out, all text is kept. *)
Lemma kept_text_clean (n : node) :
  List.Forall (fun d => removable d = false) (descendants n) ->
  kept_text n = descendant_text n.
Proof.
  induction n as [k d|k d|k t a cs IH] using node_induction;
    try reflexivity.
  intros H. simpl in *.
  induction IH as [|c cs Hc _ IHcs]; [reflexivity|].
  simpl in H. apply List.Forall_cons_iff in H as [Hrc H].
  apply List.Forall_app in H as [Hdc Hcs].
  simpl. rewrite Hrc, (Hc Hdc), (IHcs Hcs). reflexivity.
Qed.

Lemma contentText_kept (fresh k : nat) (t : jsstring) (a : attributes)
      (cs : list node) :
  List.Forall (fun x => x < fresh) (keys (Element k t a cs)) ->
  snd (Ennovi.contentText fresh (Element k t a cs))
  = kept_text (Element k t a cs).
Proof.
  intros Hel. rewrite (contentText_eq fresh _ Hel). cbn [snd].
  pose proof (isolated_text (fst (clone_tree fresh (Element k t a cs)))) as H.
  pose proof (clone_tree_spec (Element k t a cs) fresh) as (_ & _ & _ & Ht).
  rewrite <- Ht, <- H, clone_tree_element. cbn [fst].
  rewrite isolated_element. reflexivity.
Qed.

(** X14. The content isolation of the second script only leaves text out:
    the string its callback returns for a container element is made of
    units of the text content of the container, in their order. For a
    container with no script, style or noscript element, no header or
    footer and no element hidden on all breakpoints below it, the string is
    the whole text content. *)
Theorem isolation_only_drops (fresh k : nat) (t : jsstring) (a : attributes)
        (cs : list node) :
  let el := Element k t a cs in
  List.Forall (fun x => x < fresh) (keys el) ->
  snd (Ennovi.contentText fresh el) `sublist_of` textContent el /\
  (List.Forall (fun d => removable d = false) (descendants el) ->
   snd (Ennovi.contentText fresh el) = textContent el).
Proof.
  cbv zeta. intros Hel. rewrite (contentText_kept fresh k t a cs Hel).
  split.
  - apply (kept_text_sublist (Element k t a cs)).
  - intros H. apply (kept_text_clean (Element k t a cs) H).
Qed.

Lemma isolation_only_drops_witness :
  snd (Ennovi.contentText 3 sample_page) `sublist_of` textContent sample_page /\
  snd (Ennovi.contentText 3 sample_page) = textContent sample_page.
Proof.
  assert (Hel : List.Forall (fun x => x < 3) (keys sample_page)).
  { vm_compute. repeat constructor. }
  assert (Hc : List.Forall (fun d => removable d = false)
                           (descendants sample_page)).
  { vm_compute. repeat constructor. }
  pose proof (isolation_only_drops 3 0 (str "div") (mkAttributes None None [])
                [Element 1 (str "p") (mkAttributes None None [])
                         [Text 2 (str "Hello")]] Hel) as [H1 H2].
  split; [exact H1|exact (H2 Hc)].
Defined.

(* ------------------------------------------------------------------ *)
(** ** Scrolling *)

Section ScrollProperties.

Variable Page : Type.
Variable scrollHeight : Page -> option nat.
Variable scrollBy : nat -> Page -> Page.
Variable scrollTo : nat -> Page -> Page.
Variable elapse : nat -> Page -> Page.

Lemma interval_ends (H : nat) :
  (forall q, exists h, scrollHeight q = Some h /\ h <= H) ->
  forall fuel total p,
    0 < fuel -> H <= total + distance * fuel ->
    total = 0 \/ total < H ->
    exists total' q,
      interval scrollHeight scrollBy scrollTo elapse fuel total p
      = Some (total', scrollTo 0 q) /\
      (total' = distance \/ total' < H + distance).
Proof.
  intros Hh fuel.
  induction fuel as [|fuel IH]; intros total p Hf HH Ht; [lia|].
  cbn [interval]. unfold callback.
  destruct (Hh (elapse 100 p)) as (h & -> & Hle).
  destruct (h <=? total + distance) eqn:E.
  - eexists _, _. split; [reflexivity|]. lia.
  - apply Nat.leb_gt in E.
    apply IH; unfold distance in *; lia.
Qed.

(** X15. On a page whose body is never higher than [H], scrolling ends:
    once enough timer calls have been waited for, the promise is resolved
    with the window scrolled back to the top. The page has then been
    scrolled down at least once, and no further than one step past [H]. *)
Theorem autoScroll_ends (H fuel : nat) (p : Page) :
  (forall q, exists h, scrollHeight q = Some h /\ h <= H) ->
  0 < fuel -> H <= distance * fuel ->
  exists total q,
    interval scrollHeight scrollBy scrollTo elapse fuel 0 p
    = Some (total, scrollTo 0 q) /\
    autoScroll scrollHeight scrollBy scrollTo elapse fuel p
    = Some (elapse 1000 (scrollTo 0 q)) /\
    distance <= total /\
    (total = distance \/ total < H + distance).
Proof.
  intros Hh Hf HH.
  destruct (interval_ends H Hh fuel 0 p Hf) as (total & q & E & Hb);
    [lia|left; reflexivity|].
  exists total, q. unfold autoScroll. rewrite E.
  split; [reflexivity|]. split; [reflexivity|]. split; [|exact Hb].
  clear Hb. revert E. generalize 0 at 1. generalize p. clear.
  induction fuel as [|fuel IH]; intros p0 t0 E; [discriminate|].
  cbn [interval] in E. unfold callback in E.
  destruct (scrollHeight (elapse 100 p0)) as [h|]; [|exact (IH _ _ E)].
  destruct (h <=? t0 + distance).
  - assert (Et : t0 + distance = total) by congruence. lia.
  - exact (IH _ _ E).
Qed.

Lemma interval_pending (grows : nat -> Page -> Prop) :
  (forall total q,
      grows total q ->
      match scrollHeight (elapse 100 q) with
      | None => grows total (elapse 100 q)
      | Some h =>
          total + distance < h /\
          grows (total + distance) (scrollBy distance (elapse 100 q))
      end) ->
  forall fuel total p,
    grows total p ->
    interval scrollHeight scrollBy scrollTo elapse fuel total p = None.
Proof.
  intros Hg fuel.
  induction fuel as [|fuel IH]; intros total p Hp; [reflexivity|].
  cbn [interval]. unfold callback.
  specialize (Hg total p Hp).
  destruct (scrollHeight (elapse 100 p)) as [h|].
  - destruct Hg as [Hlt Hnext].
    apply Nat.leb_gt in Hlt. rewrite Hlt. apply IH. exact Hnext.
  - apply IH. exact Hg.
Qed.

(** X16. Scrolling never ends on a page that stays ahead of it: where at
    every timer call the body is higher than the total scrolled after that
    call, or the document has no body, the promise is not resolved however
    many timer calls are waited for. *)
Theorem autoScroll_never_ends (grows : nat -> Page -> Prop) (p : Page) :
  (forall total q,
      grows total q ->
      match scrollHeight (elapse 100 q) with
      | None => grows total (elapse 100 q)
      | Some h =>
          total + distance < h /\
          grows (total + distance) (scrollBy distance (elapse 100 q))
      end) ->
  grows 0 p ->
  forall fuel, autoScroll scrollHeight scrollBy scrollTo elapse fuel p = None.
Proof.
  intros Hg Hp fuel. unfold autoScroll.
  rewrite (interval_pending grows Hg fuel 0 p Hp). reflexivity.
Qed.

End ScrollProperties.

(** A page 250 pixels high is scrolled three times. *)
Lemma autoScroll_ends_witness :
  exists total q,
    interval (fun _ : nat => Some 250) (fun d y => y + d) (fun y _ => y)
             (fun _ y => y) 3 0 0
    = Some (total, q) /\
    total = 300.
Proof.
  destruct (autoScroll_ends nat (fun _ => Some 250) (fun d y => y + d)
              (fun y _ => y) (fun _ y => y) 250 3 0) as (total & q & E & _ & _ & Hb).
  - intros q. exists 250. split; [reflexivity|lia].
  - lia.
  - unfold distance. lia.
  - exists total, ((fun y _ : nat => y) 0 q). split; [exact E|].
    vm_compute in E. congruence.
Defined.

(** A feed that always has 1000 pixels more below the window. *)
Lemma autoScroll_never_ends_witness :
  autoScroll (fun y : nat => Some (y + 1000)) (fun d y => y + d)
             (fun y _ => y) (fun _ y => y) 50 0 = None.
Proof.
  apply (autoScroll_never_ends nat (fun y => Some (y + 1000))
           (fun d y => y + d) (fun y _ => y) (fun _ y => y)
           (fun total y => y = total) 0).
  - intros total q ->. cbv beta. unfold distance. split; [lia|reflexivity].
  - reflexivity.
Defined.

(* ------------------------------------------------------------------ *)
(** ** Accordions and tabs *)

Section TogglePage.

Import Widgets.

Variable Page Handle : Type.
Variable Handle_eq_dec : forall a b : Handle, {a = b} + {a <> b}.
Variable query_all : Page -> jsstring -> Page * result (list Handle).
Variable element_of : Page -> Handle -> Page * result element.
Variable click : Page -> Handle -> Page * result unit.
Variable waitForTimeout : nat -> Page -> Page * result unit.

(** The titles a selector finds, and whether a title is expanded. *)
Variable titles : jsstring -> list Handle.
Variable expanded : Page -> Handle -> bool.

(** A page of toggles: the titles stay the same, reading changes nothing,
    and a click turns the state of the title clicked and of no other. *)
Hypothesis query_stable :
  forall p selector,
  exists p', query_all p selector = (p', Ok (titles selector)) /\
             forall h, expanded p' h = expanded p h.
Hypothesis element_reads :
  forall p h,
  exists p' el, element_of p h = (p', Ok el) /\
                isExpanded el = expanded p h /\
                forall h', expanded p' h' = expanded p h'.
Hypothesis click_toggles :
  forall p h,
  exists p', click p h = (p', Ok tt) /\
             expanded p' h = negb (expanded p h) /\
             forall h', h' <> h -> expanded p' h' = expanded p h'.
Hypothesis wait_keeps :
  forall ms p h, expanded (fst (waitForTimeout ms p)) h = expanded p h.

Lemma expanding_title (p0 : Page) (seen : list Handle) (st : Page * nat)
      (h : Handle) :
  expanding expanded p0 seen st ->
  expanding expanded p0 (seen ++ [h])
            (expand_title element_of click waitForTimeout st h).
Proof.
  destruct st as [p total]. intros (Hexp & l & Hnd & Hl & Htotal).
  cbn [fst snd] in *. unfold expand_title.
  destruct (element_reads p h) as (p1 & el & -> & Hel & H1).
  rewrite Hel. destruct (expanded p h) eqn:Eh; cbn [negb].
  - (* expanded already: no click *)
    split; cbn [fst snd].
    + intros h'. rewrite H1, Hexp, in_app_iff. split.
      * intros [H|H]; [left; exact H|right; left; exact H].
      * intros [H|[H|[<-|[]]]]; [left; exact H|right; exact H|].
        apply Hexp. exact Eh.
    + exists l. split; [exact Hnd|]. split; [|exact Htotal].
      intros h'. rewrite Hl, in_app_iff. split.
      * intros [H Hc]. split; [left; exact H|exact Hc].
      * intros [[H|[<-|[]]] Hc]; [split; assumption|].
        split; [|exact Hc].
        destruct (proj1 (Hexp h) Eh) as [H|H]; [congruence|exact H].
  - (* collapsed: clicked *)
    assert (Hnew : expanded p0 h = false /\ ~ In h seen).
    { split.
      - destruct (expanded p0 h) eqn:E0; [|reflexivity].
        rewrite <- Eh. symmetry. apply Hexp. left. exact E0.
      - intros Hin. assert (expanded p h = true) by (apply Hexp; right; exact Hin).
        congruence. }
    destruct Hnew as [H0 Hseen].
    destruct (click_toggles p1 h) as (p2 & -> & Hh & Hothers).
    destruct (waitForTimeout 200 p2) as [p3 r] eqn:Ew.
    assert (H3 : forall h', expanded p3 h' = expanded p2 h').
    { intros h'. pose proof (wait_keeps 200 p2 h') as H.
      rewrite Ew in H. exact H. }
    split; cbn [fst snd].
    + intros h'. rewrite H3, in_app_iff.
      destruct (Handle_eq_dec h' h) as [->|Hne].
      * rewrite Hh, H1, Eh. cbn [negb]. split; [|reflexivity].
        intros _. right. right. left. reflexivity.
      * rewrite (Hothers h' Hne), H1, Hexp. split.
        -- intros [H|H]; [left; exact H|right; left; exact H].
        -- intros [H|[H|[E|[]]]]; [left; exact H|right; exact H|].
           congruence.
    + exists (h :: l). split; [|split].
      * constructor; [|exact Hnd]. intros Hin. apply Hl in Hin. tauto.
      * intros h'. cbn [In]. rewrite Hl, in_app_iff. cbn [In]. split.
        -- intros [<-|[H Hc]]; [split; [right; left; reflexivity|exact H0]|].
           split; [left; exact H|exact Hc].
        -- intros [[H|[E|[]]] Hc]; [right; split; assumption|left; exact E].
      * cbn [length]. rewrite Htotal. reflexivity.
Qed.

Lemma expanding_titles (p0 : Page) (ts : list Handle) :
  forall seen st,
    expanding expanded p0 seen st ->
    expanding expanded p0 (seen ++ ts)
              (fold_left (expand_title element_of click waitForTimeout) ts st).
Proof.
  induction ts as [|h ts IH]; intros seen st H.
  - rewrite app_nil_r. exact H.
  - cbn [fold_left].
    replace (seen ++ h :: ts) with ((seen ++ [h]) ++ ts)
      by (rewrite <- app_assoc; reflexivity).
    apply IH, expanding_title, H.
Qed.

Lemma expanding_selectors (p0 : Page) (selectors : list jsstring) :
  forall seen st,
    expanding expanded p0 seen st ->
    exists p' n,
      expand_selectors query_all element_of click waitForTimeout selectors st
      = (p', Ok n) /\
      expanding expanded p0 (seen ++ concat (List.map titles selectors)) (p', n).
Proof.
  induction selectors as [|selector selectors IH]; intros seen st H.
  - exists (fst st), (snd st). split; [reflexivity|].
    cbn [List.map concat]. rewrite app_nil_r. destruct st. exact H.
  - cbn [expand_selectors List.map concat].
    destruct (query_stable (fst st) selector) as (p1 & -> & H1).
    assert (Hst : expanding expanded p0 seen (p1, snd st)).
    { destruct H as (Hexp & Hl). split; [|exact Hl].
      intros h. cbn [fst]. rewrite H1. apply Hexp. }
    rewrite app_assoc.
    destruct (length (titles selector) =? 0) eqn:E.
    + apply Nat.eqb_eq in E. destruct (titles selector); [|discriminate].
      rewrite app_nil_r. apply IH. exact Hst.
    + apply IH. apply expanding_titles. exact Hst.
Qed.

(** X17. On a page of toggles [expandAccordions] leaves every title that
    one of its selectors finds expanded, and all other titles as they
    were, although a title found by two selectors is visited twice and a
    click turns a title either way. The count it logs is the number of
    different titles found that were collapsed, and it logs that none were
    found when there was none of these. *)
Theorem accordions_all_expanded (p : Page) :
  let found := concat (List.map titles accordionSelectors) in
  let after := expandAccordions query_all element_of click waitForTimeout p in
  (forall h, expanded (fst after) h = true <->
             expanded p h = true \/ In h found) /\
  exists l, List.NoDup l /\
            (forall h, In h l <-> In h found /\ expanded p h = false) /\
            snd after = if 0 <? length l then Done (length l) else NoneFound.
Proof.
  cbv zeta. unfold expandAccordions.
  destruct (expanding_selectors p accordionSelectors [] (p, 0))
    as (p' & n & -> & Hexp & l & Hnd & Hl & Hn).
  { split; [|exists []; split; [constructor|split; [|reflexivity]]].
    - intros h. cbn [fst In]. tauto.
    - intros h. cbn [In]. tauto. }
  cbn [fst snd app] in *. split; [exact Hexp|].
  exists l. split; [exact Hnd|]. split; [exact Hl|].
  rewrite Hn. reflexivity.
Qed.

End TogglePage.

Lemma accordions_all_expanded_witness :
  fst (Widgets.expandAccordions toggles_query toggles_element toggles_click
                                toggles_wait (fun h => h =? 1)) 2 = true.
Proof.
  apply (accordions_all_expanded (nat -> bool) nat Nat.eq_dec toggles_query
           toggles_element toggles_click toggles_wait (fun _ => [1; 2])
           (fun p h => p h)).
  - intros p selector. exists p. split; [reflexivity|]. reflexivity.
  - intros p h. eexists _, _. split; [reflexivity|]. split; [|reflexivity].
    unfold Widgets.isExpanded. cbn. destruct (p h); reflexivity.
  - intros p h. eexists. split; [reflexivity|]. split.
    + cbv beta. rewrite Nat.eqb_refl. reflexivity.
    + intros h' Hne. cbv beta. apply Nat.eqb_neq in Hne. rewrite Hne.
      reflexivity.
  - reflexivity.
  - right. vm_compute. right. left. reflexivity.
Defined.

Section StableTabs.

Import Widgets.

Variable Page Handle : Type.
Variable query_all : Page -> jsstring -> Page * result (list Handle).
Variable click : Page -> Handle -> Page * result unit.
Variable waitForTimeout : nat -> Page -> Page * result unit.

(** The tabs a selector finds, every time it is asked. *)
Variable tabs : jsstring -> list Handle.
Hypothesis query_stable :
  forall p selector, exists p', query_all p selector = (p', Ok (tabs selector)).

Lemma click_tab_counts (selector : jsstring) (p : Page) (total i : nat) :
  let st := click_tab query_all click waitForTimeout selector (p, total) i in
  total <= snd st <= S total /\
  ((forall q h, exists q', click q h = (q', Ok tt)) ->
   i < length (tabs selector) -> snd st = S total).
Proof.
  cbv zeta. unfold click_tab.
  destruct (query_stable p selector) as (p1 & ->).
  destruct (nth_error (tabs selector) i) as [tab|] eqn:En.
  - destruct (click p1 tab) as [p2 [[]|message]] eqn:Ec.
    + destruct (waitForTimeout 300 p2) as [p3 r]. cbn [snd].
      split; [lia|reflexivity].
    + cbn [snd]. split; [lia|]. intros Hok _.
      destruct (Hok p1 tab) as (q' & E). congruence.
  - cbn [snd]. split; [lia|]. intros _ Hi.
    apply nth_error_None in En. lia.
Qed.

Lemma click_tabs_count (selector : jsstring) (indices : list nat) :
  forall st,
    let st' := fold_left (click_tab query_all click waitForTimeout selector)
                         indices st in
    snd st <= snd st' <= snd st + length indices /\
    ((forall q h, exists q', click q h = (q', Ok tt)) ->
     List.Forall (fun i => i < length (tabs selector)) indices ->
     snd st' = snd st + length indices).
Proof.
  induction indices as [|i indices IH]; intros st; cbv zeta.
  - cbn [fold_left length]. split; [lia|]. intros _ _. lia.
  - cbn [fold_left length]. destruct st as [p total].
    pose proof (click_tab_counts selector p total i) as [Hb He].
    cbv zeta in Hb, He.
    specialize (IH (click_tab query_all click waitForTimeout selector
                              (p, total) i)).
    cbv zeta in IH. destruct IH as [IHb IHe]. cbn [snd] in *.
    split; [lia|]. intros Hok Hall.
    apply List.Forall_cons_iff in Hall as [Hi Hall].
    rewrite (IHe Hok Hall), (He Hok Hi). lia.
Qed.

Lemma click_selectors_count (selectors : list jsstring) :
  forall st,
  exists p' n,
    click_selectors query_all click waitForTimeout selectors st = (p', Ok n) /\
    snd st <= n <= snd st + length (concat (List.map tabs selectors)) /\
    ((forall q h, exists q', click q h = (q', Ok tt)) ->
     n = snd st + length (concat (List.map tabs selectors))).
Proof.
  induction selectors as [|selector selectors IH]; intros st.
  - exists (fst st), (snd st). split; [reflexivity|].
    cbn [List.map concat length]. split; [lia|]. intros _. lia.
  - cbn [click_selectors List.map concat].
    destruct (query_stable (fst st) selector) as (p1 & ->).
    rewrite length_app.
    destruct (length (tabs selector) =? 0) eqn:E.
    + apply Nat.eqb_eq in E. rewrite E.
      destruct (IH (p1, snd st)) as (p' & n & -> & Hb & He).
      exists p', n. split; [reflexivity|]. cbn [snd] in *.
      split; [lia|]. intros Hok. rewrite (He Hok). lia.
    + pose proof (click_tabs_count selector (seq 0 (length (tabs selector)))
                                   (p1, snd st)) as [Hb He].
      cbv zeta in Hb, He. rewrite length_seq in Hb, He. cbn [snd] in Hb, He.
      destruct (IH (fold_left (click_tab query_all click waitForTimeout selector)
                              (seq 0 (length (tabs selector))) (p1, snd st)))
        as (p' & n & -> & Hb' & He').
      exists p', n. split; [reflexivity|]. split; [lia|].
      intros Hok. rewrite (He' Hok), He; [lia|exact Hok|].
      apply List.Forall_forall. intros i Hi. apply List.in_seq in Hi. lia.
Qed.

(** X18. On a page whose selectors find the same tabs every time they are
    asked, [processAllTabs] counts at most one click for each tab and
    selector that finds it, and just that many when no click throws: a tab
    found by several selectors is clicked and counted once for each. It
    logs that no tabs were found when the count is zero. *)
Theorem tabs_counted_per_selector (p : Page) :
  let found := length (concat (List.map tabs tabSelectors)) in
  exists n,
    snd (processAllTabs query_all click waitForTimeout p)
    = (if 0 <? n then Done n else NoneFound) /\
    n <= found /\
    ((forall q h, exists q', click q h = (q', Ok tt)) -> n = found).
Proof.
  cbv zeta. unfold processAllTabs.
  destruct (click_selectors_count tabSelectors (p, 0))
    as (p' & n & -> & Hb & He).
  exists n. cbn [snd] in *. split; [reflexivity|]. split; [lia|].
  intros Hok. rewrite (He Hok). lia.
Qed.

End StableTabs.

(** Two tabs found by each of the four selectors are counted eight
    times. *)
Lemma tabs_counted_per_selector_witness :
  exists n,
    snd (Widgets.processAllTabs toggles_query toggles_click toggles_wait
                                (fun h => h =? 1))
    = (if 0 <? n then Widgets.Done n else Widgets.NoneFound) /\
    n = 8.
Proof.
  destruct (tabs_counted_per_selector (nat -> bool) nat toggles_query
              toggles_click toggles_wait (fun _ => [1; 2])
              (fun p selector => ex_intro _ p eq_refl) (fun h => h =? 1))
    as (n & E & _ & Hn).
  exists n. split; [exact E|]. apply Hn.
  intros q h. eexists. reflexivity.
Defined.

(* ------------------------------------------------------------------ *)
(** ** Reading the log back *)

Lemma uint_digits (d : Decimal.uint) :
  List.Forall (fun c => (48 <= c <= 57)%N) (str (NilZero.string_of_uint d)).
Proof.
  assert (H : List.Forall (fun c => (48 <= c <= 57)%N)
                          (str (DecimalString.NilEmpty.string_of_uint d))).
  { induction d; cbn; constructor; try assumption; lia. }
  destruct d; try exact H.
  cbn. constructor; [lia|constructor].
Qed.

Lemma decimal_digits (n : nat) :
  List.Forall (fun c => (48 <= c <= 57)%N) (decimal n).
Proof. apply uint_digits. Qed.

Lemma one_line_app (a b : jsstring) :
  one_line a -> one_line b -> one_line (a ++ b).
Proof.
  intros [Ha Hae] [Hb Hbe]. split.
  - intros H. apply in_app_or in H as [H|H]; tauto.
  - intros pre E. destruct b as [|x b _] using rev_ind.
    + rewrite app_nil_r in E. exact (Hae pre E).
    + rewrite app_assoc in E. apply app_inj_tail in E as [_ ->].
      exact (Hbe b eq_refl).
Qed.

Lemma one_line_digits (l : jsstring) :
  List.Forall (fun c => (48 <= c <= 57)%N) l -> one_line l.
Proof.
  intros H. rewrite List.Forall_forall in H. split.
  - intros Hin. specialize (H _ Hin). lia.
  - intros pre E. specialize (H 13%N). rewrite E in H.
    assert (48 <= 13 <= 57)%N; [|lia].
    apply H, in_or_app. right. left. reflexivity.
Qed.

Lemma one_line_literal (l : jsstring) :
  forallb (fun c => negb ((c =? 10)%N || (c =? 13)%N)) l = true -> one_line l.
Proof.
  intros H. rewrite forallb_forall in H. split.
  - intros Hin. specialize (H _ Hin). discriminate.
  - intros pre E. specialize (H 13%N). rewrite E in H.
    assert (negb ((13 =? 10)%N || (13 =? 13)%N) = true); [|discriminate].
    apply H, in_or_app. right. left. reflexivity.
Qed.

Lemma log_blocks (fs : list Ennovi.failure) :
  fs <> [] ->
  join [10%N]
       (List.map (fun item => str "URL: " ++ Ennovi.url item ++ [10%N]
                              ++ str "Reason: " ++ Ennovi.reason item ++ [10%N])
                 fs)
  = join [10%N] (flat_map log_entry fs).
Proof.
  induction fs as [|item fs IH]; intros Hne; [contradiction|].
  destruct fs as [|item' fs].
  - cbn [List.map flat_map log_entry app join].
    rewrite <- !app_assoc. reflexivity.
  - specialize (IH ltac:(discriminate)).
    rewrite map_cons, join_cons by discriminate. rewrite IH.
    change (flat_map log_entry (item :: item' :: fs))
      with ((str "URL: " ++ Ennovi.url item)
              :: (str "Reason: " ++ Ennovi.reason item)
              :: [] :: flat_map log_entry (item' :: fs)).
    rewrite !join_cons by discriminate.
    rewrite <- !app_assoc. reflexivity.
Qed.

Lemma one_line_entry (item : Ennovi.failure) :
  one_line (Ennovi.url item) -> one_line (Ennovi.reason item) ->
  List.Forall one_line (log_entry item).
Proof.
  intros Hu Hr. unfold log_entry.
  constructor; [|constructor; [|constructor; [|constructor]]].
  - apply one_line_app; [apply one_line_literal; reflexivity|exact Hu].
  - apply one_line_app; [apply one_line_literal; reflexivity|exact Hr].
  - apply one_line_literal. reflexivity.
Qed.

(** X19. The log can be read back line by line: for failures whose URL
    and reason are of one line each, cutting the contents of the log at the
    line ends gives the line with the count, an empty line, and for every
    failure in order its URL line, its reason line and an empty line. *)
Theorem log_read_back (fs : list Ennovi.failure) :
  fs <> [] ->
  List.Forall (fun item => one_line (Ennovi.url item) /\
                           one_line (Ennovi.reason item)) fs ->
  split (Ennovi.logContent fs) newline
  = log_header (length fs) :: [] :: flat_map log_entry fs /\
  length (split (Ennovi.logContent fs) newline) = 2 + 3 * length fs.
Proof.
  intros Hne Hfs.
  assert (E : split (Ennovi.logContent fs) newline
              = log_header (length fs) :: [] :: flat_map log_entry fs).
  { rewrite split_newline. unfold Ennovi.logContent.
    rewrite (log_blocks fs Hne).
    assert (Hflat : flat_map log_entry fs <> []).
    { destruct fs; [contradiction|discriminate]. }
    replace (str "Failed to scrape " ++ decimal (length fs) ++ str " URL(s):"
             ++ [10%N; 10%N] ++ join [10%N] (flat_map log_entry fs))
      with (join [10%N] (log_header (length fs) :: []
                                    :: flat_map log_entry fs)).
    - apply cut_lines_join; [discriminate|].
      constructor; [|constructor].
      + apply one_line_app; [apply one_line_literal; reflexivity|].
        apply one_line_app; [|apply one_line_literal; reflexivity].
        apply one_line_digits, decimal_digits.
      + apply one_line_literal. reflexivity.
      + clear Hne Hflat. induction Hfs as [|item fs [Hu Hr] _ IH];
          [constructor|].
        cbn [flat_map]. apply List.Forall_app. split; [|exact IH].
        apply one_line_entry; assumption.
    - rewrite !join_cons by (discriminate || exact Hflat).
      unfold log_header. rewrite <- !app_assoc. reflexivity. }
  split; [exact E|]. rewrite E. cbn [length]. f_equal. f_equal.
  clear. induction fs as [|item fs IH]; [reflexivity|].
  cbn [flat_map log_entry app length]. rewrite IH. lia.
Qed.

Lemma log_read_back_witness :
  split (Ennovi.logContent
           [Ennovi.mkFailure (str "https://b.example/about")
                             (str "No visible text found")]) newline
  = [str "Failed to scrape 1 URL(s):"; [];
     str "URL: https://b.example/about";
     str "Reason: No visible text found"; []].
Proof.
  refine (proj1 (log_read_back
                   [Ennovi.mkFailure (str "https://b.example/about")
                                     (str "No visible text found")] _ _)).
  - discriminate.
  - constructor; [|constructor].
    split; apply one_line_literal; reflexivity.
Defined.
